(** * Pepper Grinder asset tools: container codec and repacker

    A shallow embedding of the Python scripts that read, decode, encode and
    repack the [Assets.dat] container of Pepper Grinder:

    - [encode_images_fixed.py]  : [encode_chowdren_image]
    - [optimize_smart.py]       : [encode_chowdren_image_inline],
                                  [decode_chowdren_image_inline]
    - [decode_images.py]        : [decode_chowdren_image]
    - [diagnose_images.py]      : [diagnose_bin_file]
    - [repack_assets.py]        : [read_asset_table], [write_asset_table],
                                  [repack_assets]
    - [extract.py]              : [read_asset_table]

    Byte strings are [list byte]; Python integers are [Z]; Python floats are
    binary64 values of the Standard Library's [SpecFloat]; exceptions are the
    [Err] results of a small error monad.  The two external libraries, zlib
    and PIL, are interfaces (type classes): the codec is stated over any
    implementation, and a reference zlib restricted to stored and
    fixed-Huffman blocks is provided to run the codec on concrete inputs. *)

From Stdlib Require Import ZArith List Lia Bool.
From Stdlib Require Import Init.Byte Strings.Byte.
From Stdlib Require Import Floats.SpecFloat.
From stdpp Require Import base list gmap.

Local Open Scope Z_scope.

(** ** Byte strings *)

Abbreviation bytes := (list byte).

Definition b2z (b : byte) : Z := Z.of_N (Byte.to_N b).

Definition z2b (z : Z) : byte :=
  match Byte.of_N (Z.to_N (z mod 256)) with
  | Some b => b
  | None => x00
  end.

Definition byte_eqb (a b : byte) : bool := b2z a =? b2z b.

(** [bytes_of] writes a byte string from its integer values. *)
Definition bytes_of (l : list Z) : bytes := map z2b l.

(** Python's [len]. *)
Definition len {A} (l : list A) : Z := Z.of_nat (length l).

(** Python's [data[a:b]] for [0 <= a], [0 <= b]: out-of-range bounds are
    clipped, and the slice is empty when [b <= a]. *)
Definition slice {A} (a b : nat) (l : list A) : list A := take (b - a) (drop a l).

(** [b'\x00' * n] *)
Definition zeros (n : nat) : bytes := replicate n x00.

(** Python's [buf[a:b] = v] on a bytearray. *)
Definition slice_assign (a b : nat) (v buf : bytes) : bytes :=
  take a buf ++ v ++ drop (Nat.max a b) buf.

(** ** Exceptions and results *)

Inductive exn : Type :=
| SizeLimitExceeded   (* ValueError: image too large for the format *)
| MarkerNotFound      (* ValueError: no zlib data found *)
| DecompressionError  (* zlib.error / ValueError: failed to decompress *)
| ImageDataError      (* PIL ValueError: not enough image data *)
| StructError         (* struct.error *)
| OverflowError       (* float too large to pack with f format *)
| IndexError.

Inductive result (A : Type) : Type :=
| Ok (a : A)
| Err (e : exn).
Arguments Ok {A} a.
Arguments Err {A} e.

#[export] Instance result_bind : MBind result := fun A B k r =>
  match r with
  | Ok a => k a
  | Err e => Err e
  end.

#[export] Instance result_ret : MRet result := fun A a => Ok a.

(** ** [struct]: little-endian integers *)

(** [struct.unpack('<H', bs)[0]]: exactly two bytes are required. *)
Definition unpack_H (bs : bytes) : result Z :=
  match bs with
  | [a; b] => Ok (b2z a + 256 * b2z b)
  | _ => Err StructError
  end.

(** [struct.pack('<H', v)] *)
Definition pack_H (v : Z) : result bytes :=
  if (0 <=? v) && (v <=? 65535) then Ok [z2b v; z2b (v / 256)] else Err StructError.

(** [struct.unpack('<I', bs)[0]] *)
Definition unpack_I (bs : bytes) : result Z :=
  match bs with
  | [a; b; c; d] => Ok (b2z a + 256 * b2z b + 65536 * b2z c + 16777216 * b2z d)
  | _ => Err StructError
  end.

(** [struct.pack('<I', v)] *)
Definition pack_I (v : Z) : result bytes :=
  if (0 <=? v) && (v <=? 4294967295)
  then Ok [z2b v; z2b (v / 256); z2b (v / 65536); z2b (v / 16777216)]
  else Err StructError.

(** [struct.pack_into(fmt, buf, off, v)] once the value is packed to [bs]:
    the buffer must hold [len bs] bytes from [off] on. *)
Definition write_into (buf : bytes) (off : nat) (bs : bytes) : result bytes :=
  if (off + length bs <=? length buf)%nat
  then Ok (take off buf ++ bs ++ drop (off + length bs) buf)
  else Err StructError.

Definition pack_into_H (buf : bytes) (off : nat) (v : Z) : result bytes :=
  bs ← pack_H v; write_into buf off bs.

(** ** Floats

    A Python float is an IEEE 754 binary64 number ([prec = 53],
    [emax = 1024]); the [f] format of [struct] is binary32.  NaN payloads
    are not represented by [spec_float]: every NaN packs to the quiet NaN
    [0x7FC00000]. *)

Abbreviation pyfloat := spec_float.

Definition float_of_int (z : Z) : pyfloat := binary_normalize 53 1024 z 0 false.
Definition float_div (x y : pyfloat) : pyfloat := SFdiv 53 1024 x y.
Definition float_mul (x y : pyfloat) : pyfloat := SFmul 53 1024 x y.

(** The binary32 number whose bit pattern is [bits]. *)
Definition f32_of_bits (bits : Z) : pyfloat :=
  let s := Z.testbit bits 31 in
  let e := (bits / 8388608) mod 256 in
  let m := bits mod 8388608 in
  if e =? 0 then
    match m with
    | Zpos p => S754_finite s p (-149)
    | _ => S754_zero s
    end
  else if e =? 255 then
    if m =? 0 then S754_infinity s else S754_nan
  else
    match m + 8388608 with
    | Zpos p => S754_finite s p (e - 150)
    | _ => S754_nan
    end.

Definition sign_bit (s : bool) : Z := if s then 2147483648 else 0.

(** The bit pattern of a binary32 number in canonical form. *)
Definition bits_of_f32 (x : pyfloat) : Z :=
  match x with
  | S754_zero s => sign_bit s
  | S754_infinity s => sign_bit s + 2139095040
  | S754_nan => 2143289344
  | S754_finite s m e =>
      if Zpos (digits2_pos m) =? 24
      then sign_bit s + (e + 150) * 8388608 + (Zpos m - 8388608)
      else sign_bit s + Zpos m
  end.

(** Rounding of a binary64 value to binary32 (round to nearest even). *)
Definition round_f32 (x : pyfloat) : pyfloat :=
  match x with
  | S754_finite s m e => binary_normalize 24 128 (if s then Zneg m else Zpos m) e s
  | _ => x
  end.

(** [struct.unpack('<f', bs)[0]] *)
Definition unpack_f (bs : bytes) : result pyfloat :=
  bits ← unpack_I bs; Ok (f32_of_bits bits).

(** [struct.pack('<f', x)]: a finite value that rounds to an infinity raises
    OverflowError. *)
Definition pack_f (x : pyfloat) : result bytes :=
  match x, round_f32 x with
  | S754_finite _ _ _, S754_infinity _ => Err OverflowError
  | _, y => pack_I (bits_of_f32 y)
  end.

Definition pack_into_f (buf : bytes) (off : nat) (x : pyfloat) : result bytes :=
  bs ← pack_f x; write_into buf off bs.

(** ** External libraries

    zlib and PIL are not part of the repository: the codec is written over
    their interfaces. *)

(** [zlib.compress(data, level)] and [zlib.decompress(data)]; the latter is
    [None] when zlib raises [zlib.error]. *)
Class Zlib := {
  zlib_compress : bytes -> Z -> bytes;
  zlib_decompress : bytes -> option bytes
}.

Inductive image_mode := RGBA | RGB.

Definition bytes_per_pixel (m : image_mode) : Z :=
  match m with
  | RGBA => 4
  | RGB => 3
  end.

(** A PIL image: its mode, its size and the bytes [img.tobytes()] returns. *)
Record Image := {
  im_mode : image_mode;
  im_width : Z;
  im_height : Z;
  im_data : bytes
}.

(** [img.convert('RGBA')] and [img.resize((w, h), Image.Resampling.LANCZOS)]. *)
Class PIL := {
  im_convert_RGBA : Image -> Image;
  im_resize : Image -> Z -> Z -> Image
}.

(** [Image.frombytes(mode, (w, h), data)]: the raw decoder fills the rows
    of the image from [data], raises ValueError when [data] runs out and
    leaves bytes beyond the last row unread. *)
Definition Image_frombytes (m : image_mode) (w h : Z) (data : bytes) : result Image :=
  let need := w * h * bytes_per_pixel m in
  if len data <? need then Err ImageDataError
  else Ok {| im_mode := m; im_width := w; im_height := h;
             im_data := take (Z.to_nat need) data |}.

(** ** The bitmap sub-format *)

#[export] Instance byte_eq_dec : EqDecision byte.
Proof.
  intros a b. destruct (Byte.eqb a b) eqn:E.
  - left. now apply Byte.byte_dec_bl.
  - right. intros ->. rewrite Byte.byte_dec_lb in E; congruence.
Defined.

(** The two bytes the decoders look for: [b'\x78\x9c']. *)
Definition zlib_marker : bytes := [x78; x9c].

(** [for i in range(i, i + n): if data[i:i+2] == b'\x78\x9c': ... break] *)
Fixpoint find_marker_from (data : bytes) (i n : nat) : option nat :=
  match n with
  | O => None
  | S n' =>
      if bool_decide (slice i (i + 2) data = zlib_marker) then Some i
      else find_marker_from data (S i) n'
  end.

(** The fields [analyze_original_header] reads. *)
Record header_info := {
  hi_width : Z;
  hi_height : Z;
  hi_width_copy1 : Z;
  hi_height_copy1 : Z;
  hi_width_copy2 : Z;
  hi_height_copy2 : Z;
  hi_hotspot_x : pyfloat;
  hi_hotspot_y : pyfloat;
  hi_flags : Z;
  hi_decompressed_size : Z
}.

(** [analyze_original_header]: [None] for a header shorter than 50 bytes. *)
Definition analyze_original_header (header_bytes : bytes) : result (option header_info) :=
  if len header_bytes <? 50 then Ok None
  else
    width ← unpack_H (slice 0 2 header_bytes);
    height ← unpack_H (slice 2 4 header_bytes);
    width_copy1 ← unpack_H (slice 4 6 header_bytes);
    height_copy1 ← unpack_H (slice 6 8 header_bytes);
    width_copy2 ← unpack_H (slice 12 14 header_bytes);
    height_copy2 ← unpack_H (slice 14 16 header_bytes);
    hotspot_x ← unpack_f (slice 16 20 header_bytes);
    hotspot_y ← unpack_f (slice 20 24 header_bytes);
    flags ← unpack_H (slice 24 26 header_bytes);
    decompressed_size ←
      (if 48 <=? len header_bytes then unpack_H (slice 46 48 header_bytes) else Ok 0);
    Ok (Some {| hi_width := width; hi_height := height;
                hi_width_copy1 := width_copy1; hi_height_copy1 := height_copy1;
                hi_width_copy2 := width_copy2; hi_height_copy2 := height_copy2;
                hi_hotspot_x := hotspot_x; hi_hotspot_y := hotspot_y;
                hi_flags := flags; hi_decompressed_size := decompressed_size |}).

(** The six dimension fields: width at 0, 4, 12 and height at 2, 6, 14, in
    the order [encode_chowdren_image] writes them. *)
Definition write_dimensions (header : bytes) (width height : Z) : result bytes :=
  header ← pack_into_H header 0 width;
  header ← pack_into_H header 4 width;
  header ← pack_into_H header 12 width;
  header ← pack_into_H header 2 height;
  header ← pack_into_H header 6 height;
  pack_into_H header 14 height.

Definition MAX_PIXEL_DATA_SIZE : Z := 65535.

Section Codec.
Context `{Zlib} `{PIL}.

(** [encode_images_fixed.py], the branch of [encode_chowdren_image] that
    starts from the original header. *)
Definition header_from_original (original_header : bytes) (forced : bool)
    (width height pixel_size : Z) : result bytes :=
  let header := slice 0 50 original_header in
  header ← write_dimensions header width height;
  header ←
    (if forced then
       old_info ← analyze_original_header original_header;
       match old_info with
       | Some old_info =>
           if (0 <? hi_width old_info) && (0 <? hi_height old_info) then
             let hotspot_x_ratio :=
               float_div (hi_hotspot_x old_info) (float_of_int (hi_width old_info)) in
             let hotspot_y_ratio :=
               float_div (hi_hotspot_y old_info) (float_of_int (hi_height old_info)) in
             let new_hotspot_x := float_mul (float_of_int width) hotspot_x_ratio in
             let new_hotspot_y := float_mul (float_of_int height) hotspot_y_ratio in
             header ← pack_into_f header 16 new_hotspot_x;
             pack_into_f header 20 new_hotspot_y
           else Ok header
       | None => Ok header
       end
     else Ok header);
  header ← pack_into_H header 46 pixel_size;
  old_info ← analyze_original_header original_header;
  match old_info with
  | Some old_info =>
      if negb (hi_width old_info =? width) || negb (hi_height old_info =? height)
      then Ok (slice_assign 20 46 (zeros 26) header)
      else Ok header
  | None => Ok header
  end.

(** The branch of [encode_chowdren_image] that creates a default header. *)
Definition default_header (width height pixel_size : Z) : result bytes :=
  let header := zeros 50 in
  header ← pack_into_H header 0 width;
  header ← pack_into_H header 4 width;
  header ← pack_into_H header 12 width;
  header ← pack_into_H header 2 height;
  header ← pack_into_H header 6 height;
  header ← pack_into_H header 14 height;
  header ← pack_into_f header 16 (float_div (float_of_int width) (float_of_int 2));
  header ← pack_into_f header 20 (float_div (float_of_int height) (float_of_int 2));
  header ← pack_into_H header 24 2;
  pack_into_H header 46 pixel_size.

(** [encode_images_fixed.py]: [encode_chowdren_image(img, original_header,
    force_dimensions)]. *)
Definition encode_chowdren_image (img : Image) (original_header : option bytes)
    (force_dimensions : option (Z * Z)) : result bytes :=
  let img := match im_mode img with RGBA => img | _ => im_convert_RGBA img end in
  let '(width, height, img) :=
    match force_dimensions with
    | Some (width, height) => (width, height, im_resize img width height)
    | None => (im_width img, im_height img, img)
    end in
  let pixel_data := im_data img in
  let pixel_size := len pixel_data in
  if MAX_PIXEL_DATA_SIZE <? pixel_size then Err SizeLimitExceeded
  else
    let compressed_data := zlib_compress pixel_data 9 in
    header ←
      match original_header with
      | Some original_header =>
          if 50 <=? len original_header
          then header_from_original original_header
                 (match force_dimensions with Some _ => true | None => false end)
                 width height pixel_size
          else default_header width height pixel_size
      | None => default_header width height pixel_size
      end;
    Ok (header ++ compressed_data).

(** [optimize_smart.py]: the loop over the compression levels [6, 9] keeps
    the first shortest output. *)
Definition best_compressed (pixel_data : bytes) : bytes :=
  let c6 := zlib_compress pixel_data 6 in
  let c9 := zlib_compress pixel_data 9 in
  if len c9 <? len c6 then c9 else c6.

(** [optimize_smart.py]: [encode_chowdren_image_inline(img,
    original_header_bytes)]. *)
Definition encode_chowdren_image_inline (img : Image) (original_header_bytes : bytes)
    : result bytes :=
  let img := match im_mode img with RGBA => img | _ => im_convert_RGBA img end in
  let width := im_width img in
  let height := im_height img in
  let pixel_data := im_data img in
  let pixel_size := len pixel_data in
  if 65535 <? pixel_size then Err SizeLimitExceeded
  else
    let best := best_compressed pixel_data in
    let header := slice 0 50 original_header_bytes in
    header ← pack_into_H header 0 width;
    header ← pack_into_H header 2 height;
    header ← pack_into_H header 4 width;
    header ← pack_into_H header 6 height;
    header ← pack_into_H header 12 width;
    header ← pack_into_H header 14 height;
    header ← pack_into_H header 46 pixel_size;
    orig_w ← unpack_H (slice 0 2 original_header_bytes);
    orig_h ← unpack_H (slice 2 4 original_header_bytes);
    header ←
      (if negb (orig_w =? width) || negb (orig_h =? height)
       then Ok (slice_assign 20 46 (zeros 26) header)
       else if (0 <? orig_w) && (0 <? orig_h) then
         orig_hotspot_x ← unpack_f (slice 16 20 original_header_bytes);
         orig_hotspot_y ← unpack_f (slice 20 24 original_header_bytes);
         let new_hotspot_x :=
           float_mul (float_div orig_hotspot_x (float_of_int orig_w)) (float_of_int width) in
         let new_hotspot_y :=
           float_mul (float_div orig_hotspot_y (float_of_int orig_h)) (float_of_int height) in
         header ← pack_into_f header 16 new_hotspot_x;
         pack_into_f header 20 new_hotspot_y
       else Ok header);
    Ok (header ++ best).

(** [decode_images.py]: [decode_chowdren_image(data)]. *)
Definition decode_chowdren_image (data : bytes) : result Image :=
  width ← unpack_H (slice 0 2 data);
  height ← unpack_H (slice 2 4 data);
  match find_marker_from data 0 (length data - 1) with
  | None => Err MarkerNotFound
  | Some zlib_start =>
      let compressed_data := drop zlib_start data in
      match zlib_decompress compressed_data with
      | None => Err DecompressionError
      | Some pixel_data =>
          let expected_rgba := width * height * 4 in
          let expected_rgb := width * height * 3 in
          if len pixel_data =? expected_rgba then
            Image_frombytes RGBA width height pixel_data
          else if len pixel_data =? expected_rgb then
            Image_frombytes RGB width height pixel_data
          else
            let pixel_data :=
              if len pixel_data <? expected_rgba
              then pixel_data ++ replicate (Z.to_nat (expected_rgba - len pixel_data)) xff
              else take (Z.to_nat expected_rgba) pixel_data in
            Image_frombytes RGBA width height pixel_data
      end
  end.

(** [optimize_smart.py]: [decode_chowdren_image_inline(data)]. *)
Definition decode_chowdren_image_inline (data : bytes) : result Image :=
  width ← unpack_H (slice 0 2 data);
  height ← unpack_H (slice 2 4 data);
  match find_marker_from data 0 (Nat.min 100 (length data - 1)) with
  | None => Err MarkerNotFound
  | Some zlib_start =>
      match zlib_decompress (drop zlib_start data) with
      | None => Err DecompressionError
      | Some pixel_data => Image_frombytes RGBA width height pixel_data
      end
  end.

End Codec.

(** [diagnose_images.py]: the marker scan of [diagnose_bin_file]. *)
Definition has_zlib (data : bytes) : bool :=
  match find_marker_from data 0 (Nat.min 100 (length data - 1)) with
  | Some _ => true
  | None => false
  end.

(** [diagnose_images.py]: [diagnose_bin_file], on the bytes of the file.
    The marker scan and the size comparison only print a warning; an
    exception while reading the header returns False. *)
Definition diagnose_bin_file (data : bytes) : bool :=
  let file_size := len data in
  if file_size <? 50 then false
  else
    let checked :=
      width ← unpack_H (slice 0 2 data);
      height ← unpack_H (slice 2 4 data);
      decompressed_size ←
        (if 48 <=? len data then unpack_H (slice 46 48 data) else Ok 0);
      let warn_no_zlib := negb (has_zlib data) in
      if (width =? 0) || (height =? 0) then Ok false
      else if (4096 <? width) || (4096 <? height) then Ok false
      else
        let expected_pixels := width * height * 4 in
        let warn_size_mismatch := negb (decompressed_size =? expected_pixels) in
        Ok true in
    match checked with
    | Ok b => b
    | Err _ => false
    end.

(** ** Asset tables *)

(** A binary file: [f.seek(pos); f.read(size)] returns the bytes that exist. *)
Definition file_read (f : bytes) (pos size : nat) : bytes := slice pos (pos + size) f.

(** [f.seek(pos); f.write(data)]: a write past the end of the file fills the
    hole with zero bytes. *)
Definition file_write (f : bytes) (pos : nat) (data : bytes) : bytes :=
  take pos f ++ zeros (pos - length f) ++ data ++ drop (pos + length data) f.

(** [struct.unpack('<II', data)] *)
Definition unpack_II (data : bytes) : result (Z * Z) :=
  if bool_decide (length data = 8%nat) then
    offset ← unpack_I (slice 0 4 data);
    size ← unpack_I (slice 4 8 data);
    Ok (offset, size)
  else Err StructError.

(** [struct.pack('<II', offset, size)] *)
Definition pack_II (offset size : Z) : result bytes :=
  a ← pack_I offset; b ← pack_I size; Ok (a ++ b).

(** The loop of [read_asset_table], from file position [pos], with [count]
    iterations left. *)
Fixpoint read_entries (f : bytes) (pos count : nat) : result (list (Z * Z)) :=
  match count with
  | O => Ok []
  | S count' =>
      let data := file_read f pos 8 in
      if (length data <? 8)%nat then Ok []
      else
        entry ← unpack_II data;
        entries ← read_entries f (pos + 8) count';
        Ok (entry :: entries)
  end.

(** [repack_assets.py] and [extract.py]: [read_asset_table(f, table_offset,
    count)]. *)
Definition read_asset_table (f : bytes) (table_offset count : nat) : result (list (Z * Z)) :=
  read_entries f table_offset count.

(** [repack_assets.py]: [write_asset_table(f, table_offset, entries)]. *)
Fixpoint write_entries (f : bytes) (pos : nat) (entries : list (Z * Z)) : result bytes :=
  match entries with
  | [] => Ok f
  | (offset, size) :: entries' =>
      data ← pack_II offset size;
      write_entries (file_write f pos data) (pos + 8) entries'
  end.

Definition write_asset_table (f : bytes) (table_offset : nat) (entries : list (Z * Z))
    : result bytes :=
  write_entries f table_offset entries.

(** ** The repacker *)

Definition IMAGE_COUNT : nat := Z.to_nat 10260.
Definition SOUND_COUNT : nat := Z.to_nat 267.
Definition FONT_COUNT : nat := Z.to_nat 19.
Definition SHADER_COUNT : nat := Z.to_nat 3.

Definition TABLE_OFFSETS_images : nat := Z.to_nat 0.
Definition TABLE_OFFSETS_sounds : nat := Z.to_nat 82048.
Definition TABLE_OFFSETS_fonts : nat := Z.to_nat 84184.
Definition TABLE_OFFSETS_shaders : nat := Z.to_nat 84336.

Definition metadata_size : Z :=
  Z.of_nat IMAGE_COUNT * 8 + Z.of_nat SOUND_COUNT * 8 +
  Z.of_nat FONT_COUNT * 8 + Z.of_nat SHADER_COUNT * 8.

(** What the loops of [repack_assets] update: the output file, the table
    being processed and the running offset. *)
Record repack_state := {
  rs_new_f : bytes;
  rs_table : list (Z * Z);
  rs_current_offset : Z
}.

(** The branch that writes a modified asset. *)
Definition write_modified (data : bytes) (i : nat) (st : repack_state) : result repack_state :=
  let new_f := file_write (rs_new_f st) (Z.to_nat (rs_current_offset st)) data in
  match rs_table st !! i with
  | None => Err IndexError
  | Some _ =>
      Ok {| rs_new_f := new_f;
            rs_table := <[i := (rs_current_offset st, len data)]> (rs_table st);
            rs_current_offset := rs_current_offset st + len data |}
  end.

(** The branch that copies the original asset. *)
Definition copy_original (orig_f : bytes) (i : nat) (st : repack_state) : result repack_state :=
  match rs_table st !! i with
  | None => Err IndexError
  | Some (orig_offset, orig_size) =>
      let data := file_read orig_f (Z.to_nat orig_offset) (Z.to_nat orig_size) in
      Ok {| rs_new_f := file_write (rs_new_f st) (Z.to_nat (rs_current_offset st)) data;
            rs_table := <[i := (rs_current_offset st, orig_size)]> (rs_table st);
            rs_current_offset := rs_current_offset st + orig_size |}
  end.

(** The body of the image and sound loops. *)
Definition repack_step (orig_f : bytes) (modified : gmap nat bytes) (i : nat)
    (st : repack_state) : result repack_state :=
  match modified !! i with
  | Some data => write_modified data i st
  | None => copy_original orig_f i st
  end.

(** The body of the shader loop: a shader of size 0 or at offset 0 is
    skipped. *)
Definition shader_step (orig_f : bytes) (i : nat) (st : repack_state) : result repack_state :=
  match rs_table st !! i with
  | None => Err IndexError
  | Some (orig_offset, orig_size) =>
      if (0 <? orig_size) && (0 <? orig_offset) then copy_original orig_f i st
      else Ok st
  end.

(** [for i in range(i, i + n): st = body(i, st)] *)
Fixpoint for_range (body : nat -> repack_state -> result repack_state) (i n : nat)
    (st : repack_state) : result repack_state :=
  match n with
  | O => Ok st
  | S n' => st' ← body i st; for_range body (S i) n' st'
  end.

Record repack_result := {
  rr_image_table : list (Z * Z);
  rr_sound_table : list (Z * Z);
  rr_font_table : list (Z * Z);
  rr_shader_table : list (Z * Z);
  rr_new_f : bytes;
  rr_final_size : Z
}.

(** [repack_assets.py]: [repack_assets], given the bytes of the original
    archive and the contents of the modified image and sound files by
    index. *)
Definition repack_assets (orig_f : bytes) (modified_images modified_sounds : gmap nat bytes)
    : result repack_result :=
  image_table ← read_asset_table orig_f TABLE_OFFSETS_images IMAGE_COUNT;
  sound_table ← read_asset_table orig_f TABLE_OFFSETS_sounds SOUND_COUNT;
  font_table ← read_asset_table orig_f TABLE_OFFSETS_fonts FONT_COUNT;
  shader_table ← read_asset_table orig_f TABLE_OFFSETS_shaders SHADER_COUNT;
  let new_f := file_write [] 0 (zeros (Z.to_nat metadata_size)) in
  let current_offset := metadata_size in
  st ← for_range (repack_step orig_f modified_images) 0 IMAGE_COUNT
         {| rs_new_f := new_f; rs_table := image_table;
            rs_current_offset := current_offset |};
  let image_table := rs_table st in
  st ← for_range (repack_step orig_f modified_sounds) 0 SOUND_COUNT
         {| rs_new_f := rs_new_f st; rs_table := sound_table;
            rs_current_offset := rs_current_offset st |};
  let sound_table := rs_table st in
  st ← for_range (copy_original orig_f) 0 FONT_COUNT
         {| rs_new_f := rs_new_f st; rs_table := font_table;
            rs_current_offset := rs_current_offset st |};
  let font_table := rs_table st in
  st ← for_range (shader_step orig_f) 0 SHADER_COUNT
         {| rs_new_f := rs_new_f st; rs_table := shader_table;
            rs_current_offset := rs_current_offset st |};
  let shader_table := rs_table st in
  new_f ← write_asset_table (rs_new_f st) TABLE_OFFSETS_images image_table;
  new_f ← write_asset_table new_f TABLE_OFFSETS_sounds sound_table;
  new_f ← write_asset_table new_f TABLE_OFFSETS_fonts font_table;
  new_f ← write_asset_table new_f TABLE_OFFSETS_shaders shader_table;
  Ok {| rr_image_table := image_table; rr_sound_table := sound_table;
        rr_font_table := font_table; rr_shader_table := shader_table;
        rr_new_f := new_f; rr_final_size := rs_current_offset st |}.

(** ** A reference zlib (RFC 1950, RFC 1951)

    The compressor emits stored blocks behind the two header bytes zlib
    chooses for the level; the decompressor reads stored and fixed-Huffman
    blocks and checks the Adler-32 trailer.  Dynamic-Huffman blocks are
    answered as [zlib.error].  It stands for zlib wherever the codec is run
    on a concrete input. *)
Module RefZlib.

Definition adler32_step (st : Z * Z) (b : byte) : Z * Z :=
  let a := (fst st + b2z b) mod 65521 in
  (a, (snd st + a) mod 65521).

Definition adler32 (data : bytes) : Z :=
  let '(a, b) := fold_left adler32_step data (1, 0) in
  b * 65536 + a.

Definition be32 (v : Z) : bytes :=
  [z2b (v / 16777216); z2b (v / 65536); z2b (v / 256); z2b v].

Definition le16 (v : Z) : bytes := [z2b v; z2b (v / 256)].

(** The FLG byte after CMF = 0x78: FLEVEL from the level, FCHECK so that
    the header is a multiple of 31. *)
Definition flg_of_level (level : Z) : byte :=
  if (0 <=? level) && (level <? 2) then x01
  else if (2 <=? level) && (level <? 6) then x5e
  else if (level =? 6) || (level =? -1) then x9c
  else xda.

Fixpoint stored_blocks (fuel : nat) (data : bytes) : bytes :=
  match fuel with
  | O => []
  | S fuel' =>
      if len data <=? 65535 then
        [x01] ++ le16 (len data) ++ le16 (65535 - len data) ++ data
      else
        [x00; xff; xff; x00; x00] ++ take (Z.to_nat 65535) data ++
        stored_blocks fuel' (drop (Z.to_nat 65535) data)
  end.

Definition compress (data : bytes) (level : Z) : bytes :=
  [x78; flg_of_level level] ++ stored_blocks (S (length data)) data ++
  be32 (adler32 data).

(** Bits of the stream, least significant bit of each byte first. *)
Definition bits_of_byte (b : byte) : list bool :=
  map (fun i => Z.testbit (b2z b) (Z.of_nat i)) (seq 0 8).

Definition bits_of_bytes (data : bytes) : list bool :=
  concat (map bits_of_byte data).

(** A bit reader: the bits left and the number of bits consumed. *)
Definition reader : Type := list bool * nat.

(** [n] bits as an integer, first bit least significant. *)
Fixpoint read_lsb (n : nat) (r : reader) : option (Z * reader) :=
  match n with
  | O => Some (0, r)
  | S n' =>
      match r with
      | (b :: bits, k) =>
          match read_lsb n' (bits, S k) with
          | Some (v, r') => Some (Z.b2z b + 2 * v, r')
          | None => None
          end
      | ([], _) => None
      end
  end.

(** [n] bits of a Huffman code, first bit most significant, after [acc]. *)
Fixpoint read_msb (n : nat) (acc : Z) (r : reader) : option (Z * reader) :=
  match n with
  | O => Some (acc, r)
  | S n' =>
      match r with
      | (b :: bits, k) => read_msb n' (2 * acc + Z.b2z b) (bits, S k)
      | ([], _) => None
      end
  end.

Definition align (r : reader) : reader :=
  let skip := ((8 - snd r mod 8) mod 8)%nat in
  (drop skip (fst r), (snd r + skip)%nat).

Fixpoint read_bytes (n : nat) (r : reader) : option (bytes * reader) :=
  match n with
  | O => Some ([], r)
  | S n' =>
      match read_lsb 8 r with
      | Some (v, r') =>
          match read_bytes n' r' with
          | Some (bs, r'') => Some (z2b v :: bs, r'')
          | None => None
          end
      | None => None
      end
  end.

(** A literal/length symbol of the fixed Huffman code. *)
Definition read_fixed_symbol (r : reader) : option (Z * reader) :=
  match read_msb 7 0 r with
  | None => None
  | Some (c7, r7) =>
      if c7 <=? 23 then Some (256 + c7, r7)
      else
        match read_msb 1 c7 r7 with
        | None => None
        | Some (c8, r8) =>
            if c8 <=? 191 then Some (c8 - 48, r8)
            else if c8 <=? 199 then Some (280 + (c8 - 192), r8)
            else
              match read_msb 1 c8 r8 with
              | None => None
              | Some (c9, r9) => Some (144 + (c9 - 400), r9)
              end
        end
  end.

(** The match length of a length symbol 257..285. *)
Definition read_length (sym : Z) (r : reader) : option (Z * reader) :=
  if sym <=? 264 then Some (sym - 254, r)
  else if sym =? 285 then Some (258, r)
  else if 285 <? sym then None
  else
    let k := sym - 261 in
    let extra := k / 4 in
    match read_lsb (Z.to_nat extra) r with
    | Some (v, r') => Some (3 + (4 + k mod 4) * 2 ^ extra + v, r')
    | None => None
    end.

(** The match distance: a five-bit code and its extra bits. *)
Definition read_distance (r : reader) : option (Z * reader) :=
  match read_msb 5 0 r with
  | None => None
  | Some (d, r') =>
      if d <? 4 then Some (d + 1, r')
      else if 29 <? d then None
      else
        let extra := d / 2 - 1 in
        match read_lsb (Z.to_nat extra) r' with
        | Some (v, r'') => Some (1 + (2 + d mod 2) * 2 ^ extra + v, r'')
        | None => None
        end
  end.

(** Copy [n] bytes from [dist] back; [out] is the output so far, last byte
    first. *)
Fixpoint copy_match (n dist : nat) (out : bytes) : option bytes :=
  match n with
  | O => Some out
  | S n' =>
      match dist with
      | O => None
      | S d =>
          match out !! d with
          | Some b => copy_match n' dist (b :: out)
          | None => None
          end
      end
  end.

Fixpoint inflate_fixed (fuel : nat) (r : reader) (out : bytes) : option (bytes * reader) :=
  match fuel with
  | O => None
  | S fuel' =>
      match read_fixed_symbol r with
      | None => None
      | Some (sym, r1) =>
          if sym <? 256 then inflate_fixed fuel' r1 (z2b sym :: out)
          else if sym =? 256 then Some (out, r1)
          else
            match read_length sym r1 with
            | None => None
            | Some (n, r2) =>
                match read_distance r2 with
                | None => None
                | Some (dist, r3) =>
                    match copy_match (Z.to_nat n) (Z.to_nat dist) out with
                    | Some out' => inflate_fixed fuel' r3 out'
                    | None => None
                    end
                end
            end
      end
  end.

Definition inflate_stored (r : reader) (out : bytes) : option (bytes * reader) :=
  match read_lsb 16 (align r) with
  | None => None
  | Some (n, r1) =>
      match read_lsb 16 r1 with
      | None => None
      | Some (nn, r2) =>
          if n + nn =? 65535 then
            match read_bytes (Z.to_nat n) r2 with
            | Some (bs, r3) => Some (rev bs ++ out, r3)
            | None => None
            end
          else None
      end
  end.

Fixpoint inflate_blocks (fuel : nat) (r : reader) (out : bytes) : option (bytes * reader) :=
  match fuel with
  | O => None
  | S fuel' =>
      match read_lsb 1 r with
      | None => None
      | Some (bfinal, r1) =>
          match read_lsb 2 r1 with
          | None => None
          | Some (btype, r2) =>
              let block :=
                if btype =? 0 then inflate_stored r2 out
                else if btype =? 1 then inflate_fixed (length (fst r2)) r2 out
                else None in
              match block with
              | None => None
              | Some (out', r3) =>
                  if bfinal =? 1 then Some (out', r3)
                  else inflate_blocks fuel' r3 out'
              end
          end
      end
  end.

(** [zlib.decompress]: bytes after the end of the stream are ignored. *)
Definition decompress (data : bytes) : option bytes :=
  match data with
  | cmf :: flg :: body =>
      if (b2z cmf mod 16 =? 8) && (b2z cmf / 16 <=? 7)
         && ((b2z cmf * 256 + b2z flg) mod 31 =? 0)
         && negb (Z.testbit (b2z flg) 5) then
        let bits := bits_of_bytes body in
        match inflate_blocks (S (length bits)) (bits, O) [] with
        | None => None
        | Some (out, r) =>
            match read_bytes 4 (align r) with
            | Some (trailer, _) =>
                let data := rev out in
                if bool_decide (trailer = be32 (adler32 data)) then Some data else None
            | None => None
            end
        end
      else None
  | _ => None
  end.

End RefZlib.

#[local] Instance ref_zlib : Zlib := {|
  zlib_compress := RefZlib.compress;
  zlib_decompress := RefZlib.decompress
|}.

(** A stand-in for PIL on concrete inputs: RGB pixels gain an opaque alpha
    byte, and resizing samples the nearest source pixel. *)
Module RefPIL.

Fixpoint add_alpha (data : bytes) (n : nat) : bytes :=
  match n with
  | O => []
  | S n' => take 3 data ++ [xff] ++ add_alpha (drop 3 data) n'
  end.

Definition convert_RGBA (img : Image) : Image :=
  match im_mode img with
  | RGBA => img
  | RGB =>
      {| im_mode := RGBA; im_width := im_width img; im_height := im_height img;
         im_data := add_alpha (im_data img) (Z.to_nat (im_width img * im_height img)) |}
  end.

Definition pixel_at (img : Image) (x y : Z) : bytes :=
  let bpp := Z.to_nat (bytes_per_pixel (im_mode img)) in
  let p := Z.to_nat (y * im_width img + x) in
  let px := slice (p * bpp) (p * bpp + bpp) (im_data img) in
  px ++ zeros (bpp - length px).

Definition resize (img : Image) (width height : Z) : Image :=
  {| im_mode := im_mode img; im_width := width; im_height := height;
     im_data :=
       concat (map (fun i =>
                 let x := Z.of_nat i mod width in
                 let y := Z.of_nat i / width in
                 pixel_at img (x * im_width img / width) (y * im_height img / height))
               (seq 0 (Z.to_nat (width * height)))) |}.

End RefPIL.

#[local] Instance ref_pil : PIL := {|
  im_convert_RGBA := RefPIL.convert_RGBA;
  im_resize := RefPIL.resize
|}.


(** ** Python numbers in the tools around the codec *)


(** [int(x)]: truncation towards zero; OverflowError for an infinity,
    ValueError for a NaN. *)
Definition int_of_float (x : pyfloat) : option Z :=
  match x with
  | S754_zero _ => Some 0
  | S754_finite s m e =>
      let v := if 0 <=? e then Zpos m * 2 ^ e else Zpos m / 2 ^ (- e) in
      Some (if s then - v else v)
  | _ => None
  end.

Definition float_sub (x y : pyfloat) : pyfloat := SFsub 53 1024 x y.


(** ** The extractor

    [extract.py] reads the tables with the offsets and counts of
    [PEPPER_GRINDER_FORMAT], the numbers [repack_assets.py] has in
    [TABLE_OFFSETS] and [IMAGE_COUNT] to [SHADER_COUNT].  A function that
    extracts a table returns, in table order, the extension of the file name
    it chose for each record and the bytes it wrote to that file. *)

(** [extract.py]: the bytes [extract_asset(f, offset, size, output_path)]
    writes to [output_path]. *)
Definition extract_asset (f : bytes) (offset size : Z) : bytes :=
  file_read f (Z.to_nat offset) (Z.to_nat size).

(** The extensions of the extracted files. *)
Inductive extension : Type :=
| ext_png | ext_jpg | ext_bmp | ext_dds | ext_bin | ext_ogg | ext_wav | ext_ttf | ext_glsl.

(** [b'\x89PNG'], [b'\xff\xd8'], [b'BM'], [b'DDS '] *)
Definition PNG_magic : bytes := [x89; x50; x4e; x47].
Definition JPEG_magic : bytes := [xff; xd8].
Definition BMP_magic : bytes := [x42; x4d].
Definition DDS_magic : bytes := [x44; x44; x53; x20].

(** [extract.py]: [detect_image_format(data)]. *)
Definition detect_image_format (data : bytes) : extension :=
  if bool_decide (take 4 data = PNG_magic) then ext_png
  else if bool_decide (take 2 data = JPEG_magic) then ext_jpg
  else if bool_decide (take 2 data = BMP_magic) then ext_bmp
  else if bool_decide (take 4 data = DDS_magic) then ext_dds
  else ext_bin.

(** [l[:limit]] *)
Definition py_prefix {A} (limit : Z) (l : list A) : list A :=
  if limit <? 0 then take (length l - Z.to_nat (- limit)) l else take (Z.to_nat limit) l.

(** [extract.py]: [extract_images(assets_file, output_dir, limit)]; the
    record of index [i] goes to [images/image_{i:05d}.{fmt}]. *)
Definition extract_images (assets_file : bytes) (limit : Z)
    : result (list (extension * bytes)) :=
  images ← read_asset_table assets_file TABLE_OFFSETS_images IMAGE_COUNT;
  Ok (map (fun '(offset, size) =>
             let header := file_read assets_file (Z.to_nat offset) (Z.to_nat (Z.min 16 size)) in
             let fmt := detect_image_format header in
             (fmt, extract_asset assets_file offset size))
          (py_prefix limit images)).

(** [b'OggS'], [b'RIFF'] *)
Definition OggS : bytes := [x4f; x67; x67; x53].
Definition RIFF : bytes := [x52; x49; x46; x46].

(** The test [extract_sounds] makes on the four bytes it reads at the
    offset of a sound. *)
Definition sound_extension (header : bytes) : extension :=
  if bool_decide (header = OggS) then ext_ogg
  else if bool_decide (header = RIFF) then ext_wav
  else ext_bin.

(** [extract.py]: [extract_sounds(assets_file, output_dir, limit)]; the
    record of index [i] goes to [sounds/sound_{i:03d}.{ext}]. *)
Definition extract_sounds (assets_file : bytes) (limit : Z)
    : result (list (extension * bytes)) :=
  sounds ← read_asset_table assets_file TABLE_OFFSETS_sounds SOUND_COUNT;
  Ok (map (fun '(offset, size) =>
             let header := file_read assets_file (Z.to_nat offset) 4 in
             let ext := sound_extension header in
             (ext, extract_asset assets_file offset size))
          (py_prefix limit sounds)).

(** [b'\x00\x01\x00\x00'], [b'OTTO'], [b'true'] *)
Definition TTF_magics : list bytes :=
  [[x00; x01; x00; x00]; [x4f; x54; x54; x4f]; [x74; x72; x75; x65]].

(** The test [extract_fonts] makes on the first bytes of a font. *)
Definition font_extension (header : bytes) : extension :=
  if bool_decide (take 4 header ∈ TTF_magics) then ext_ttf else ext_bin.

(** [extract.py]: [extract_fonts(assets_file, output_dir)]; the record of
    index [i] goes to [fonts/font_{i:02d}.{ext}]. *)
Definition extract_fonts (assets_file : bytes) : result (list (extension * bytes)) :=
  fonts ← read_asset_table assets_file TABLE_OFFSETS_fonts FONT_COUNT;
  Ok (map (fun '(offset, size) =>
             let header := file_read assets_file (Z.to_nat offset) (Z.to_nat (Z.min 16 size)) in
             let ext := font_extension header in
             (ext, extract_asset assets_file offset size))
          fonts).

(** [extract.py]: [extract_shaders(assets_file, output_dir)]; the record of
    index [i] goes to [shaders/shader_{i:02d}.glsl]. *)
Definition extract_shaders (assets_file : bytes) : result (list (extension * bytes)) :=
  shaders ← read_asset_table assets_file TABLE_OFFSETS_shaders SHADER_COUNT;
  Ok (map (fun '(offset, size) => (ext_glsl, extract_asset assets_file offset size)) shaders).

(** ** Silent audio *)



(** ** The optimizer *)

(** The fourth component of the tuple [optimize_single_image_smart]
    returns: ["too_small"], ["no_change"], ["would_be_too_large"],
    ["saved"], ["error"]. *)
Inductive optimize_reason : Type :=
| reason_too_small | reason_no_change | reason_would_be_too_large
| reason_saved | reason_error.

(** What a call of [optimize_single_image_smart] returns and does:
    [(saved, original_pixels, new_pixels, reason, pixel_reduction)], the
    last component [None] where Python has [None] or the text of an
    exception, and the bytes written to [output_bin_path], if any. *)
Record optimize_outcome := {
  oo_saved : bool;
  oo_original_pixels : Z;
  oo_new_pixels : Z;
  oo_reason : optimize_reason;
  oo_pixel_reduction : option pyfloat;
  oo_written : option bytes
}.

(** A [return (False, original_pixels, 0, reason, None)]. *)
Definition skipped (original_pixels : Z) (reason : optimize_reason) : optimize_outcome :=
  {| oo_saved := false; oo_original_pixels := original_pixels; oo_new_pixels := 0;
     oo_reason := reason; oo_pixel_reduction := None; oo_written := None |}.

(** The [except Exception] branch, after [written] went to the output
    file. *)
Definition failed (written : option bytes) : optimize_outcome :=
  {| oo_saved := false; oo_original_pixels := 0; oo_new_pixels := 0;
     oo_reason := reason_error; oo_pixel_reduction := None; oo_written := written |}.

Section Optimizer.
Context `{Zlib} `{PIL}.

(** [optimize_smart.py]: [optimize_single_image_smart(bin_path,
    output_bin_path, scale_factor, min_dimension)] on the contents
    [original_data] of [bin_path]. *)
Definition optimize_single_image_smart (original_data : bytes) (scale_factor : pyfloat)
    (min_dimension : Z) : optimize_outcome :=
  let original_size := len original_data in
  if original_size <? 50 then skipped original_size reason_too_small
  else
    match decode_chowdren_image_inline original_data with
    | Err _ => failed None
    | Ok img =>
        let orig_w := im_width img in
        let orig_h := im_height img in
        if (orig_w <=? min_dimension) || (orig_h <=? min_dimension)
        then skipped (orig_w * orig_h) reason_too_small
        else
          match int_of_float (float_mul (float_of_int orig_w) scale_factor),
                int_of_float (float_mul (float_of_int orig_h) scale_factor) with
          | Some scaled_w, Some scaled_h =>
              let new_w := Z.max 1 scaled_w in
              let new_h := Z.max 1 scaled_h in
              let new_w := if new_w <? min_dimension then min_dimension else new_w in
              let new_h := if new_h <? min_dimension then min_dimension else new_h in
              if (new_w =? orig_w) && (new_h =? orig_h)
              then skipped (orig_w * orig_h) reason_no_change
              else
                let new_pixel_size := new_w * new_h * 4 in
                if 65535 <? new_pixel_size
                then skipped (orig_w * orig_h) reason_would_be_too_large
                else
                  let img_resized := im_resize img new_w new_h in
                  match encode_chowdren_image_inline img_resized original_data with
                  | Err _ => failed None
                  | Ok encoded_data =>
                      let orig_pixels := orig_w * orig_h in
                      let new_pixels := new_w * new_h in
                      (* [new_pixels / orig_pixels] raises ZeroDivisionError *)
                      if orig_pixels =? 0 then failed (Some encoded_data)
                      else
                        let pixel_reduction :=
                          float_mul
                            (float_sub (float_of_int 1)
                               (float_div (float_of_int new_pixels) (float_of_int orig_pixels)))
                            (float_of_int 100) in
                        {| oo_saved := true; oo_original_pixels := orig_pixels;
                           oo_new_pixels := new_pixels; oo_reason := reason_saved;
                           oo_pixel_reduction := Some pixel_reduction;
                           oo_written := Some encoded_data |}
                  end
          | _, _ => failed None
          end
    end.

End Optimizer.

(** ** Vocabulary of the statements *)

(** [raises_only P r]: when [r] is an exception, it satisfies [P]. *)
Definition raises_only {A} (P : exn -> Prop) (r : result A) : Prop :=
  forall e, r = Err e -> P e.

Definition not_size_limit (e : exn) : Prop := e <> SizeLimitExceeded.

(** A call of one of the two encoders. *)
Inductive encode_call : Type :=
| Call_encode (img : Image) (original_header : option bytes)
    (force_dimensions : option (Z * Z))
| Call_inline (img : Image) (original_header_bytes : bytes).

(** The source header an encoder call is given. *)
Definition call_header (c : encode_call) : option bytes :=
  match c with
  | Call_encode _ original_header _ => original_header
  | Call_inline _ original_header_bytes => Some original_header_bytes
  end.

(** Whether the call forces dimensions. *)
Definition call_forced (c : encode_call) : bool :=
  match c with
  | Call_encode _ _ (Some _) => true
  | _ => false
  end.

(** The width and height stored in the first copy of a header. *)
Definition stored_size (header : bytes) : result (Z * Z) :=
  w ← unpack_H (slice 0 2 header); h ← unpack_H (slice 2 4 header); Ok (w, h).

(** The hotspot stored in a header. *)
Definition stored_hotspot (header : bytes) : result (pyfloat * pyfloat) :=
  x ← unpack_f (slice 16 20 header); y ← unpack_f (slice 20 24 header); Ok (x, y).

(** All three width copies read [w] and all three height copies read [h]. *)
Definition header_dims_are (w h : Z) (blob : bytes) : Prop :=
  unpack_H (slice 0 2 blob) = Ok w /\ unpack_H (slice 4 6 blob) = Ok w /\
  unpack_H (slice 12 14 blob) = Ok w /\
  unpack_H (slice 2 4 blob) = Ok h /\ unpack_H (slice 6 8 blob) = Ok h /\
  unpack_H (slice 14 16 blob) = Ok h.

(** [new_dim * (old_hotspot / old_dim)], the hotspot rescaling of both
    encoders, as a Python float. *)
Definition rescale_hotspot (old_hotspot : pyfloat) (old_dim new_dim : Z) : pyfloat :=
  float_mul (float_of_int new_dim) (float_div old_hotspot (float_of_int old_dim)).

(** The four bytes of a hotspot component after rescaling the component
    stored in [old]. *)
Definition rescaled_hotspot_bytes (old : bytes) (old_dim new_dim : Z) : result bytes :=
  x ← unpack_f old; pack_f (rescale_hotspot x old_dim new_dim).

Section EncodeCalls.
Context `{Zlib} `{PIL}.

Definition run_encode (c : encode_call) : result bytes :=
  match c with
  | Call_encode img original_header force_dimensions =>
      encode_chowdren_image img original_header force_dimensions
  | Call_inline img original_header_bytes =>
      encode_chowdren_image_inline img original_header_bytes
  end.

(** The image whose pixel buffer the call compresses: converted to RGBA
    when needed, resized when dimensions are forced. *)
Definition call_image (c : encode_call) : Image :=
  match c with
  | Call_encode img _ force_dimensions =>
      let img := match im_mode img with RGBA => img | _ => im_convert_RGBA img end in
      match force_dimensions with
      | Some (width, height) => im_resize img width height
      | None => img
      end
  | Call_inline img _ =>
      match im_mode img with RGBA => img | _ => im_convert_RGBA img end
  end.

Definition call_pixels (c : encode_call) : bytes := im_data (call_image c).

(** The width and height the call writes to the header. *)
Definition call_size (c : encode_call) : Z * Z :=
  match c with
  | Call_encode img _ force_dimensions =>
      let img := match im_mode img with RGBA => img | _ => im_convert_RGBA img end in
      match force_dimensions with
      | Some (width, height) => (width, height)
      | None => (im_width img, im_height img)
      end
  | Call_inline img _ =>
      let img := match im_mode img with RGBA => img | _ => im_convert_RGBA img end in
      (im_width img, im_height img)
  end.

End EncodeCalls.


(** The header of a blob re-encoded at new dimensions [(w, h)]: the opaque
    region at bytes 20-45 is zero, the three width copies read [w], the
    three height copies read [h], and bytes 46-47 hold [w * h * 4]. *)
Definition metadata_zeroed (w h : Z) (blob : bytes) : Prop :=
  slice 20 46 blob = zeros 26 /\ header_dims_are w h blob /\
  unpack_H (slice 46 48 blob) = Ok (w * h * 4).

(** The little-endian u32 at [pos], and the record of two of them. *)
Definition u32_at (f : bytes) (pos : nat) : Z :=
  b2z (nth pos f x00) + 256 * b2z (nth (pos + 1) f x00) +
  65536 * b2z (nth (pos + 2) f x00) + 16777216 * b2z (nth (pos + 3) f x00).

Definition entry_at (f : bytes) (pos : nat) : Z * Z := (u32_at f pos, u32_at f (pos + 4)).

(** The records of a table of [count] entries at [table_offset] that the
    file holds in full. *)
Definition available_entries (f : bytes) (table_offset count : nat) : nat :=
  Nat.min count ((length f - table_offset) / 8).

(** The pixel buffer [decode_chowdren_image] builds from an inflated payload
    of the wrong size: padded with 0xFF or truncated to [expected] bytes. *)
Definition pad_or_truncate (expected : Z) (pixel_data : bytes) : bytes :=
  if len pixel_data <? expected
  then pixel_data ++ replicate (Z.to_nat (expected - len pixel_data)) xff
  else take (Z.to_nat expected) pixel_data.

(** ** The layout of a repacked archive *)

(** The guard of the shader loop, [orig_size > 0 and orig_offset > 0], on a
    record [(offset, size)]. *)
Definition is_written (e : Z * Z) : bool := (0 <? e.2) && (0 <? e.1).

(** [laid_out start recs stop]: the records lie back to back from [start]
    to [stop], each at the offset where the previous one ends. *)
Fixpoint laid_out (start : Z) (recs : list (Z * Z)) (stop : Z) : Prop :=
  match recs with
  | [] => start = stop
  | (offset, size) :: recs' =>
      offset = start /\ 0 <= size /\ laid_out (start + size) recs' stop
  end.

Definition sizes_nonneg (table : list (Z * Z)) : Prop := Forall (fun e => 0 <= e.2) table.

(** The records [repack_assets] writes, in the order it writes them. *)
Definition written_records (res : repack_result) : list (Z * Z) :=
  rr_image_table res ++ rr_sound_table res ++ rr_font_table res ++
  List.filter is_written (rr_shader_table res).

(** A loop body that writes the record [i] at the running offset. *)
Definition writes_record (body : nat -> repack_state -> result repack_state) : Prop :=
  forall i st st',
    sizes_nonneg (rs_table st) -> body i st = Ok st' ->
    exists s, 0 <= s /\ (i < length (rs_table st))%nat /\
      rs_table st' = <[i := (rs_current_offset st, s)]> (rs_table st) /\
      rs_current_offset st' = rs_current_offset st + s.

Definition sizes_within (B : Z) (table : list (Z * Z)) : Prop :=
  Forall (fun e => 0 <= e.2 <= B) table.

Definition files_within (B : Z) (modified : gmap nat bytes) : Prop :=
  forall i data, modified !! i = Some data -> len data <= B.

Definition step_succeeds (B : Z) (body : nat -> repack_state -> result repack_state) : Prop :=
  forall i st,
    sizes_within B (rs_table st) -> (i < length (rs_table st))%nat ->
    exists st', body i st = Ok st' /\
      length (rs_table st') = length (rs_table st) /\
      sizes_within B (rs_table st') /\
      rs_current_offset st' <= rs_current_offset st + B.

Definition u32_record (e : Z * Z) : Prop :=
  0 <= e.1 <= 4294967295 /\ 0 <= e.2 <= 4294967295.

Definition table_sizes_within (B : Z) (orig_f : bytes) (table_offset count : nat) : Prop :=
  forall table, read_asset_table orig_f table_offset count = Ok table -> sizes_within B table.


(** ** Concrete inputs *)

(** A 2x2 RGBA image whose 16 pixel bytes zlib stores uncompressed, and the
    blob [encode_chowdren_image] returns for it: zlib 1.2.13 at level 9 emits
    the same 27 payload bytes as the reference compressor. *)
Definition image_2x2 : Image :=
  {| im_mode := RGBA; im_width := 2; im_height := 2;
     im_data := bytes_of [0xf0; 0xf1; 0xf2; 0xf3; 0xf4; 0xf5; 0xf6; 0xf7;
                          0xf8; 0xf9; 0xfa; 0xfb; 0xfc; 0xfd; 0xfe; 0xff] |}.

Definition blob_2x2 : bytes :=
  bytes_of [0x02; 0x00; 0x02; 0x00; 0x02; 0x00; 0x02; 0x00; 0; 0; 0; 0;
            0x02; 0x00; 0x02; 0x00; 0x00; 0x00; 0x80; 0x3f; 0x00; 0x00; 0x80; 0x3f;
            0x02; 0x00; 0; 0; 0; 0; 0; 0; 0; 0; 0; 0; 0; 0; 0; 0; 0; 0; 0; 0; 0; 0;
            0x10; 0x00; 0; 0;
            0x78; 0xda; 0x01; 0x10; 0x00; 0xef; 0xff;
            0xf0; 0xf1; 0xf2; 0xf3; 0xf4; 0xf5; 0xf6; 0xf7;
            0xf8; 0xf9; 0xfa; 0xfb; 0xfc; 0xfd; 0xfe; 0xff;
            0x82; 0x38; 0x0f; 0x79].

(** A 4x4 RGBA image whose first 12 pixel bytes are themselves a zlib stream
    (of 64 zero bytes) and whose 64 pixel bytes zlib stores uncompressed at
    levels 6 and 9, with a source header that only holds the dimensions. *)
Definition pixels_4x4 : bytes :=
  bytes_of [0x78; 0x9c; 0x63; 0x60; 0xa0; 0x0c; 0x00; 0x00; 0x00; 0x40; 0x00; 0x01;
            0xf0; 0x02; 0x2e; 0x74; 0xd4; 0x4e; 0xe2; 0x90; 0x58; 0x3a; 0x36; 0x4c;
            0x7c; 0xc6; 0x2a; 0xa8; 0x40; 0xf2; 0xbe; 0xa4; 0xa4; 0xbe; 0xf2; 0x40;
            0xa8; 0x2a; 0xc6; 0x7c; 0x4c; 0x36; 0x3a; 0x58; 0x90; 0xe2; 0x4e; 0xd4;
            0x74; 0x2e; 0x02; 0xf0; 0xf8; 0x1a; 0x56; 0xac; 0x1c; 0xa6; 0x4a; 0x08;
            0xe0; 0xd2; 0xde; 0x04].
Definition image_4x4 : Image :=
  {| im_mode := RGBA; im_width := 4; im_height := 4; im_data := pixels_4x4 |}.
Definition header_4x4 : bytes :=
  bytes_of [4; 0; 4; 0] ++ zeros 46.

(** A 1x1 bitmap whose payload inflates to two bytes. *)
Definition blob_short_payload : bytes :=
  bytes_of [1; 0; 1; 0; 1; 0; 1; 0; 0; 0; 0; 0; 1; 0; 1; 0] ++ zeros 34 ++
  bytes_of [0x78; 0x9c; 0x01; 0x02; 0x00; 0xfd; 0xff; 0x11; 0x22; 0x00; 0x46; 0x00; 0x34].

(** A 50-byte 1x1 bitmap without compressed payload, and a 4096x1 header
    followed by the marker. *)
Definition blob_no_marker : bytes :=
  bytes_of [1; 0; 1; 0; 1; 0; 1; 0; 0; 0; 0; 0; 1; 0; 1; 0] ++ zeros 30 ++
  bytes_of [4; 0; 0; 0].

Definition blob_4096 : bytes :=
  bytes_of [0; 16; 1; 0; 0; 16; 1; 0; 0; 0; 0; 0; 0; 16; 1; 0] ++ zeros 30 ++
  bytes_of [0; 64; 0; 0; 0x78; 0x9c].


(** A 4x4 source header with a hotspot of (2.0, 1.5), flags and non-zero
    opaque bytes. *)
Definition header_4x4_full : bytes :=
  bytes_of [4; 0; 4; 0; 4; 0; 4; 0; 0; 0; 0; 0; 4; 0; 4; 0;
            0x00; 0x00; 0x00; 0x40; 0x00; 0x00; 0xc0; 0x3f; 2; 0;
            1; 2; 3; 4; 5; 6; 7; 8; 9; 10; 11; 12; 13; 14; 15; 16; 17; 18; 19; 20;
            64; 0; 0; 0].


(** An archive of 84392 zero bytes: every record of the four tables is
    [(0, 0)]. *)
Definition empty_archive : bytes := zeros (Z.to_nat 84392).


(** ** The contents of a repacked archive *)

(** The file holds [data] at position [pos]. *)
Definition holds (f : bytes) (pos : Z) (data : bytes) : Prop :=
  extract_asset f pos (len data) = data.

(** What [repack_assets] writes for the record [e] of index [i]: the modified
    file when there is one, the bytes read from the original archive
    otherwise; and the size it records. *)
Definition payload (orig_f : bytes) (modified : gmap nat bytes) (i : nat) (e : Z * Z) : bytes :=
  match modified !! i with
  | Some data => data
  | None => extract_asset orig_f e.1 e.2
  end.

Definition payload_size (modified : gmap nat bytes) (i : nat) (e : Z * Z) : Z :=
  match modified !! i with
  | Some data => len data
  | None => e.2
  end.

(** A loop body that, for a record that passes [guard], writes its payload
    at the running offset and records offset and size, and otherwise leaves
    the state alone. *)
Definition writes_payload (guard : Z * Z -> bool) (orig_f : bytes) (modified : gmap nat bytes)
    (body : nat -> repack_state -> result repack_state) : Prop :=
  forall i st st',
    body i st = Ok st' ->
    exists e, rs_table st !! i = Some e /\
      st' = if guard e
            then {| rs_new_f := file_write (rs_new_f st) (Z.to_nat (rs_current_offset st))
                                  (payload orig_f modified i e);
                    rs_table := <[i := (rs_current_offset st, payload_size modified i e)]>
                                  (rs_table st);
                    rs_current_offset := rs_current_offset st + payload_size modified i e |}
            else st.

(** The records of [new_table] point at the payloads of the records of
    [orig_table] that pass [guard]. *)
Definition stored (new_f : bytes) (guard : Z * Z -> bool) (orig_f : bytes)
    (modified : gmap nat bytes) (orig_table new_table : list (Z * Z)) : Prop :=
  forall k e, orig_table !! k = Some e -> guard e = true ->
    exists o, new_table !! k = Some (o, payload_size modified k e) /\
      metadata_size <= o /\ holds new_f o (payload orig_f modified k e).

(** The image records that end below the sound table. *)
Definition images_below_sounds : nat := (TABLE_OFFSETS_sounds - TABLE_OFFSETS_images) / 8.

(** The record [e] of index [i] is extracted from the repacked archive in
    full when it was replaced by a modified file or lay inside the original
    archive. *)
Definition intact (orig_f : bytes) (modified : gmap nat bytes) (i : nat) (e : Z * Z) : Prop :=
  is_Some (modified !! i) \/ e.1 + e.2 <= len orig_f.

(** The records [new_table] lists for the records of [orig_table] that pass
    [guard], extracted from [new_f], are their payloads. *)
Definition extracts (new_f : bytes) (guard : Z * Z -> bool) (orig_f : bytes)
    (modified : gmap nat bytes) (orig_table new_table : list (Z * Z)) (n : nat) : Prop :=
  forall i e, (i < n)%nat -> orig_table !! i = Some e -> guard e = true ->
    intact orig_f modified i e ->
    exists o s, new_table !! i = Some (o, s) /\ s = payload_size modified i e /\
      extract_asset new_f o s = payload orig_f modified i e.

(** ** The extracted files *)

(** The files extracted for the records of [orig_table] of index below [n]
    that pass [guard], were replaced or lay inside the original archive, and
    have a payload of at least [min_len] bytes: the payload, under the
    extension [ext_of] selects for it. *)
Definition extracted_as (ext_of : bytes -> extension) (min_len : Z) (guard : Z * Z -> bool)
    (orig_f : bytes) (modified : gmap nat bytes) (orig_table : list (Z * Z))
    (outs : list (extension * bytes)) (n : nat) : Prop :=
  forall i e, (i < n)%nat -> orig_table !! i = Some e -> guard e = true ->
    intact orig_f modified i e -> min_len <= len (payload orig_f modified i e) ->
    outs !! i = Some (ext_of (payload orig_f modified i e), payload orig_f modified i e).

(** The first four bytes of a header of width [w] and height [h]. *)
Definition dims_front (w h : Z) : bytes := [z2b w; z2b (w / 256); z2b h; z2b (h / 256)].

(** [hd] starts with the dimensions [w] and [h], both in the range of a
    u16. *)
Definition starts_with_dims (w h : Z) (hd : bytes) : Prop :=
  take 4 hd = dims_front w h /\ 0 <= w <= 65535 /\ 0 <= h <= 65535.

(** ** Silent audio and the optimizer *)


(** What the optimizer relies on from PIL: [img.resize((w, h), ...)] has
    the mode of [img], the size [(w, h)] and [w * h] pixels. *)
Definition resize_law `{PIL} : Prop :=
  forall img w h, 0 < w -> 0 < h ->
    im_mode (im_resize img w h) = im_mode img /\
    im_width (im_resize img w h) = w /\ im_height (im_resize img w h) = h /\
    len (im_data (im_resize img w h)) = w * h * bytes_per_pixel (im_mode img).

(** The Python float [0.5], the default [scale_factor] of the optimizer. *)
Definition default_scale_factor : pyfloat := S754_finite false 4503599627370496 (-53).

(** ** The header of every encoded image *)

(** [hd] is a header for an image of [w] by [h] pixels and [n] bytes of
    pixel data: the three copies of the dimensions and the size field. *)
Definition describes (w h n : Z) (hd : bytes) : Prop :=
  header_dims_are w h hd /\ unpack_H (slice 46 48 hd) = Ok n.
(** * Properties *)

Arguments z2b : simpl never.
Arguments b2z : simpl never.

(** ** The error monad *)

Lemma bind_Ok {A B} (k : A -> result B) (r : result A) (b : B) :
  r ≫= k = Ok b -> exists a, r = Ok a /\ k a = Ok b.
Proof. destruct r as [a|e]; simpl; [eauto | discriminate]. Qed.

Lemma bind_Err {A B} (k : A -> result B) (r : result A) (e : exn) :
  r ≫= k = Err e -> r = Err e \/ exists a, r = Ok a /\ k a = Err e.
Proof. destruct r as [a|e']; intros E; [right; eauto | left; injection E as ->; reflexivity]. Qed.

Lemma raises_only_Ok {A} P (a : A) : raises_only P (Ok a).
Proof. intros e; discriminate. Qed.

Lemma raises_only_Err {A} (P : exn -> Prop) e : P e -> raises_only P (@Err A e).
Proof. intros HP e' [= <-]; exact HP. Qed.

Lemma raises_only_bind {A B} P (k : A -> result B) (r : result A) :
  raises_only P r -> (forall a, raises_only P (k a)) -> raises_only P (r ≫= k).
Proof.
  intros Hr Hk e He. destruct (bind_Err _ _ _ He) as [E | (a & _ & E)].
  - exact (Hr _ E).
  - exact (Hk a _ E).
Qed.

Ltac raises_other := apply raises_only_Err; unfold not_size_limit; discriminate.

Lemma pack_H_raises v : raises_only not_size_limit (pack_H v).
Proof. unfold pack_H. case_match; [apply raises_only_Ok | raises_other]. Qed.

Lemma pack_I_raises v : raises_only not_size_limit (pack_I v).
Proof. unfold pack_I. case_match; [apply raises_only_Ok | raises_other]. Qed.

Lemma unpack_H_raises bs : raises_only not_size_limit (unpack_H bs).
Proof.
  destruct bs as [|a [|b [|c bs]]]; simpl;
    try raises_other; apply raises_only_Ok.
Qed.

Lemma unpack_I_raises bs : raises_only not_size_limit (unpack_I bs).
Proof.
  destruct bs as [|a [|b [|c [|d [|e bs]]]]]; simpl;
    try raises_other; apply raises_only_Ok.
Qed.

Lemma unpack_f_raises bs : raises_only not_size_limit (unpack_f bs).
Proof.
  unfold unpack_f. apply raises_only_bind; [apply unpack_I_raises|].
  intros; apply raises_only_Ok.
Qed.

Lemma write_into_raises buf off bs : raises_only not_size_limit (write_into buf off bs).
Proof. unfold write_into. case_match; [apply raises_only_Ok | raises_other]. Qed.

Lemma pack_into_H_raises buf off v : raises_only not_size_limit (pack_into_H buf off v).
Proof.
  unfold pack_into_H. apply raises_only_bind; [apply pack_H_raises|].
  intros; apply write_into_raises.
Qed.

Lemma pack_f_raises x : raises_only not_size_limit (pack_f x).
Proof.
  unfold pack_f.
  destruct x; try apply pack_I_raises.
  destruct (round_f32 _); try apply pack_I_raises. raises_other.
Qed.

Lemma pack_into_f_raises buf off x : raises_only not_size_limit (pack_into_f buf off x).
Proof.
  unfold pack_into_f. apply raises_only_bind; [apply pack_f_raises|].
  intros; apply write_into_raises.
Qed.

Lemma analyze_original_header_raises h :
  raises_only not_size_limit (analyze_original_header h).
Proof.
  unfold analyze_original_header. case_match; [apply raises_only_Ok|].
  repeat (apply raises_only_bind;
          [first [apply unpack_H_raises | apply unpack_f_raises
                 | case_match; [apply unpack_H_raises | apply raises_only_Ok]]
          | intros ?]).
  apply raises_only_Ok.
Qed.

Create HintDb raises discriminated.
#[local] Hint Resolve raises_only_Ok pack_into_H_raises pack_into_f_raises
  unpack_H_raises unpack_f_raises analyze_original_header_raises : raises.

Ltac raises_step :=
  first
    [ solve [auto with raises]
    | apply raises_only_bind; [| intros ?]
    | match goal with
      | |- raises_only _ (match ?x with _ => _ end) => destruct x
      end ].

Lemma write_dimensions_raises header w h :
  raises_only not_size_limit (write_dimensions header w h).
Proof. unfold write_dimensions. repeat raises_step. Qed.

Lemma default_header_raises w h n : raises_only not_size_limit (default_header w h n).
Proof. unfold default_header. repeat raises_step. Qed.

Lemma header_from_original_raises oh forced w h n :
  raises_only not_size_limit (header_from_original oh forced w h n).
Proof.
  unfold header_from_original.
  apply raises_only_bind; [apply write_dimensions_raises | intros ?].
  repeat raises_step.
Qed.

(** ** Bytes and [struct] *)

Lemma b2z_range b : 0 <= b2z b < 256.
Proof. unfold b2z. pose proof (Byte.to_N_bounded b). lia. Qed.

Lemma b2z_z2b z : b2z (z2b z) = z mod 256.
Proof.
  unfold z2b, b2z.
  pose proof (Z.mod_pos_bound z 256 eq_refl) as Hb.
  destruct (Byte.of_N (Z.to_N (z mod 256))) as [b|] eqn:E.
  - apply Byte.to_of_N in E. rewrite E. lia.
  - apply Byte.of_N_None_iff in E. lia.
Qed.

Lemma z2b_b2z b : z2b (b2z b) = b.
Proof.
  unfold z2b, b2z. pose proof (Byte.to_N_bounded b).
  rewrite Z.mod_small by lia. rewrite N2Z.id, Byte.of_to_N. reflexivity.
Qed.

Lemma u16_bytes v : 0 <= v <= 65535 -> b2z (z2b v) + 256 * b2z (z2b (v / 256)) = v.
Proof.
  intros Hv. rewrite !b2z_z2b.
  rewrite (Z.mod_small (v / 256))
    by (split; [apply Z.div_pos; lia | apply Z.div_lt_upper_bound; lia]).
  pose proof (Z.div_mod v 256). lia.
Qed.

Lemma slice_app_l {A} (a b : nat) (l r : list A) :
  (b <= length l)%nat -> slice a b (l ++ r) = slice a b l.
Proof.
  intros Hb. unfold slice. rewrite drop_app.
  rewrite take_app_le by (rewrite length_drop; lia).
  reflexivity.
Qed.

Lemma pack_into_H_Ok buf off v buf' :
  pack_into_H buf off v = Ok buf' ->
  0 <= v <= 65535 /\ (off + 2 <= length buf)%nat /\
  buf' = take off buf ++ [z2b v; z2b (v / 256)] ++ drop (off + 2) buf.
Proof.
  unfold pack_into_H, pack_H. destruct (andb _ _) eqn:E; [|discriminate].
  apply andb_true_iff in E as [?%Z.leb_le ?%Z.leb_le]. simpl.
  unfold write_into. simpl length.
  destruct (Nat.leb_spec (off + 2) (length buf)); [|discriminate].
  intros [= <-]. auto.
Qed.

Lemma pack_I_length v bs : pack_I v = Ok bs -> length bs = 4%nat.
Proof. unfold pack_I. case_match; [|discriminate]. now intros [= <-]. Qed.

Lemma pack_f_length x bs : pack_f x = Ok bs -> length bs = 4%nat.
Proof.
  unfold pack_f. destruct x; try apply pack_I_length.
  destruct (round_f32 _); try apply pack_I_length. discriminate.
Qed.

Lemma pack_into_f_Ok buf off x buf' :
  pack_into_f buf off x = Ok buf' ->
  exists a b c d, pack_f x = Ok [a; b; c; d] /\ (off + 4 <= length buf)%nat /\
  buf' = take off buf ++ [a; b; c; d] ++ drop (off + 4) buf.
Proof.
  unfold pack_into_f. intros (bs & Hp & Hw)%bind_Ok.
  pose proof (pack_f_length _ _ Hp) as Hl.
  destruct bs as [|a [|b [|c [|d [|? ?]]]]]; try discriminate.
  exists a, b, c, d. split; [assumption|].
  unfold write_into in Hw. simpl length in Hw.
  destruct (Nat.leb_spec (off + 4) (length buf)); [|discriminate].
  injection Hw as <-. auto.
Qed.


(** ** The header written by the encoders *)

Ltac explode l H :=
  do 50 (destruct l as [|? l]; [exfalso; unfold len in H; simpl in H; lia|]).

Ltac crunch :=
  cbn [firstn skipn app Nat.add Nat.sub Nat.max slice slice_assign zeros replicate
       length unpack_H unpack_f unpack_I mbind result_bind
       hi_width hi_height hi_hotspot_x hi_hotspot_y] in *.

Ltac bind_step :=
  match goal with
  | E : pack_into_H _ _ _ = Ok _ |- _ =>
      apply pack_into_H_Ok in E; destruct E as (? & _ & ->); crunch
  | E : pack_into_f _ _ _ = Ok _ |- _ =>
      apply pack_into_f_Ok in E; destruct E as (? & ? & ? & ? & ? & _ & ->); crunch
  | E : _ ≫= _ = Ok _ |- _ =>
      apply bind_Ok in E; destruct E as (? & ? & E)
  | E : Ok _ = Ok _ |- _ => injection E as <-
  end.

(* Invert [header_from_original oh forced w h n = Ok hd] for a header [oh]
   of at least 50 bytes ([Hlen]): the header becomes an explicit list, up to
   the hotspot step [E2] and the final zeroing [E]. *)
Ltac header_from_original_inv E Hlen oh :=
  unfold header_from_original, analyze_original_header in E;
  let H1 := fresh in let H2 := fresh in
  assert (H1 : (len oh <? 50) = false) by (apply Z.ltb_ge; lia);
  assert (H2 : (48 <=? len oh) = true) by (apply Z.leb_le; lia);
  rewrite H1, H2 in E; clear H1 H2;
  explode oh Hlen; clear Hlen; crunch;
  let E1 := fresh "E1" in let E2 := fresh "E2" in let E3 := fresh "E3" in
  apply bind_Ok in E as (? & E1 & E);
  apply bind_Ok in E as (? & E2 & E);
  apply bind_Ok in E as (? & E3 & E);
  unfold write_dimensions in E1; repeat bind_step; crunch.

Ltac changed_dims E Hne :=
  match type of E with
  | (if ?c then _ else _) = _ =>
      let C := fresh in
      assert (C : c = true)
        by (repeat match goal with
                   | |- context [?a =? ?b] => destruct (Z.eqb_spec a b)
                   end; try reflexivity; exfalso; apply Hne; split; congruence);
      rewrite C in E; clear C
  end.


Lemma stored_size_neq hdr w h ow oh :
  stored_size hdr = Ok (ow, oh) -> stored_size hdr <> Ok (w, h) -> ~ (ow = w /\ oh = h).
Proof. intros E N [-> ->]. contradiction. Qed.

(** The header branch of [encode_chowdren_image], dimensions changed. *)
Lemma header_from_original_resized oh forced w h n hd :
  50 <= len oh -> stored_size oh <> Ok (w, h) ->
  header_from_original oh forced w h n = Ok hd ->
  length hd = 50%nat /\ slice 20 46 hd = zeros 26 /\ header_dims_are w h hd /\
  unpack_H (slice 46 48 hd) = Ok n /\
  (forall ow ohh, forced = true -> stored_size oh = Ok (ow, ohh) -> 0 < ow -> 0 < ohh ->
     Ok (slice 16 20 hd) = rescaled_hotspot_bytes (slice 16 20 oh) ow w).
Proof.
  intros Hlen Hne E. unfold rescaled_hotspot_bytes, rescale_hotspot.
  header_from_original_inv E Hlen oh.
  unfold stored_size in *. crunch.
  assert (Hne' : ~ (b2z b + 256 * b2z b0 = w /\ b2z b1 + 256 * b2z b2 = h))
    by (intros [<- <-]; apply Hne; reflexivity).
  changed_dims E Hne'. injection E as <-.
  unfold header_dims_are.
  destruct forced.
  - destruct (andb _ _) eqn:C; repeat bind_step; crunch;
      rewrite !u16_bytes by assumption; repeat split; try reflexivity.
    + intros ow ohh _ [= <- <-] _ _. congruence.
    + intros ow ohh _ [= <- <-] ?%Z.ltb_lt ?%Z.ltb_lt.
      rewrite andb_false_iff in C. destruct C; congruence.
  - repeat bind_step; crunch;
      rewrite !u16_bytes by assumption; repeat split; try reflexivity.
    intros; discriminate.
Qed.


Section InlineHeader.
Context `{Zlib} `{PIL}.

(* Invert [encode_chowdren_image_inline img oh = Ok blob] for a header [oh]
   of at least 50 bytes. *)
Ltac inline_inv E Hlen oh :=
  unfold encode_chowdren_image_inline in E;
  match type of E with
  | (if ?c then _ else _) = _ => destruct c; [discriminate|]
  end;
  explode oh Hlen; clear Hlen; crunch;
  repeat bind_step; crunch.

Lemma encode_inline_resized img oh w h blob :
  50 <= len oh -> call_size (Call_inline img oh) = (w, h) ->
  stored_size oh <> Ok (w, h) ->
  encode_chowdren_image_inline img oh = Ok blob ->
  slice 20 46 blob = zeros 26 /\ header_dims_are w h blob /\
  unpack_H (slice 46 48 blob) = Ok (len (call_pixels (Call_inline img oh))).
Proof.
  intros Hlen Hsz Hne E. unfold call_size, call_pixels, call_image in *.
  injection Hsz as Hw Hh.
  inline_inv E Hlen oh.
  unfold stored_size in Hne. crunch.
  rewrite Hw, Hh in *.
  assert (Hne' : ~ (b2z b + 256 * b2z b0 = w /\ b2z b1 + 256 * b2z b2 = h))
    by (intros [<- <-]; apply Hne; reflexivity).
  match goal with
  | E : (if ?c then _ else _) = _ |- _ => changed_dims E Hne'; injection E as <-
  end.
  unfold header_dims_are. crunch.
  rewrite !u16_bytes by assumption. repeat split; reflexivity.
Qed.


End InlineHeader.

Section CodecFacts.
Context `{Zlib} `{PIL}.

Lemma encode_chowdren_image_unfold img oh fd :
  encode_chowdren_image img oh fd =
  let c := Call_encode img oh fd in
  let pixel_data := call_pixels c in
  if MAX_PIXEL_DATA_SIZE <? len pixel_data then Err SizeLimitExceeded
  else
    header ←
      match oh with
      | Some original_header =>
          if 50 <=? len original_header
          then header_from_original original_header (call_forced c)
                 (call_size c).1 (call_size c).2 (len pixel_data)
          else default_header (call_size c).1 (call_size c).2 (len pixel_data)
      | None => default_header (call_size c).1 (call_size c).2 (len pixel_data)
      end;
    Ok (header ++ zlib_compress pixel_data 9).
Proof.
  unfold encode_chowdren_image, call_pixels, call_image, call_size, call_forced.
  destruct fd as [[w h]|]; reflexivity.
Qed.

(** The size-limit error is raised exactly for a pixel buffer longer than
    65535 bytes. *)
Lemma run_encode_size_limit c :
  run_encode c = Err SizeLimitExceeded <-> 65535 < len (call_pixels c).
Proof.
  destruct c as [img oh fd | img oh]; unfold run_encode.
  - rewrite encode_chowdren_image_unfold. cbv zeta. unfold MAX_PIXEL_DATA_SIZE.
    set (px := call_pixels _). set (sz := call_size _). set (fc := call_forced _).
    destruct (Z.ltb_spec 65535 (len px)) as [Hgt|Hle]; [tauto|].
    split; [|lia]. intros E. exfalso. revert E.
    match goal with |- ?r = _ -> _ => assert (R : raises_only not_size_limit r) end.
    { apply raises_only_bind; [|intros; apply raises_only_Ok].
      destruct oh as [o|]; [case_match|];
        auto using header_from_original_raises, default_header_raises. }
    intros E. now apply R in E.
  - unfold encode_chowdren_image_inline, call_pixels, call_image.
    set (img' := match im_mode img with RGBA => img | _ => im_convert_RGBA img end).
    destruct (Z.ltb_spec 65535 (len (im_data img'))) as [Hgt|Hle]; [tauto|].
    split; [|lia]. intros E. exfalso. revert E.
    match goal with |- ?r = _ -> _ => assert (R : raises_only not_size_limit r) end.
    { repeat raises_step. }
    intros E. now apply R in E.
Qed.

(** C3. An encoder call whose pixel buffer is longer than 65535 bytes raises
    the size-limit error, and so returns no blob; a call whose pixel buffer
    has at most 65535 bytes does not raise it. *)
Theorem encode_size_limit (c : encode_call) :
  (65535 < len (call_pixels c) -> run_encode c = Err SizeLimitExceeded) /\
  (len (call_pixels c) <= 65535 -> run_encode c <> Err SizeLimitExceeded).
Proof.
  pose proof (run_encode_size_limit c) as A.
  split; [intros; apply A; lia | intros Hle E; apply A in E; lia].
Qed.

End CodecFacts.

Section HeaderClaims.
Context `{Zlib} `{PIL}.

(** A successful call of [encode_chowdren_image] with a source header of at
    least 50 bytes returns the header of [header_from_original] followed by
    the compressed pixels. *)
Lemma encode_chowdren_image_Ok img hdr fd blob :
  50 <= len hdr ->
  encode_chowdren_image img (Some hdr) fd = Ok blob ->
  let c := Call_encode img (Some hdr) fd in
  exists hd,
    header_from_original hdr (call_forced c) (call_size c).1 (call_size c).2
      (len (call_pixels c)) = Ok hd /\
    blob = hd ++ zlib_compress (call_pixels c) 9.
Proof.
  intros Hlen E c. rewrite encode_chowdren_image_unfold in E. cbv zeta in E. fold c in E.
  destruct (MAX_PIXEL_DATA_SIZE <? _); [discriminate|].
  assert (L : (50 <=? len hdr) = true) by (apply Z.leb_le; lia).
  rewrite L in E. apply bind_Ok in E as (hd & E1 & [= <-]). eauto.
Qed.

Lemma header_dims_are_app w h hd rest :
  length hd = 50%nat -> header_dims_are w h hd -> header_dims_are w h (hd ++ rest).
Proof.
  intros L. unfold header_dims_are. rewrite !slice_app_l by lia. tauto.
Qed.

(** C2; X9. An encoder call given a source header of at least 50 bytes
    whose stored dimensions differ from the dimensions [(w, h)] it writes
    returns a blob whose bytes 20-45 are zero, whose three width copies
    read [w] and three height copies read [h], and whose bytes 46-47 hold
    [w * h * 4]. *)
Theorem encode_resized_zeroes_metadata c hdr w h blob :
  call_header c = Some hdr -> 50 <= len hdr ->
  call_size c = (w, h) -> len (call_pixels c) = w * h * 4 ->
  stored_size hdr <> Ok (w, h) ->
  run_encode c = Ok blob ->
  metadata_zeroed w h blob.
Proof.
  intros Hh Hlen Hsz Hpx Hne E. unfold metadata_zeroed.
  destruct c as [img oh fd | img oh]; simpl in Hh, E.
  - subst oh. apply encode_chowdren_image_Ok in E as (hd & E & ->); [|assumption].
    rewrite Hsz, Hpx in E. simpl in E.
    apply header_from_original_resized in E as (L & Z & D & S & _); [|assumption..].
    rewrite !slice_app_l by lia. auto using header_dims_are_app.
  - injection Hh as ->. rewrite <- Hpx.
    eapply encode_inline_resized; eassumption.
Qed.



End HeaderClaims.

Lemma encode_resized_zeroes_metadata_witness :
  (exists blob,
     run_encode (Call_encode image_4x4 (Some header_4x4_full) (Some (2, 2))) = Ok blob /\
     metadata_zeroed 2 2 blob) /\
  (exists blob,
     run_encode (Call_inline image_2x2 header_4x4_full) = Ok blob /\
     metadata_zeroed 2 2 blob).
Proof.
  split; eexists; (split; [vm_compute; reflexivity|]).
  - apply (encode_resized_zeroes_metadata
             (Call_encode image_4x4 (Some header_4x4_full) (Some (2, 2))) header_4x4_full);
      try (vm_compute; reflexivity); vm_compute; discriminate.
  - apply (encode_resized_zeroes_metadata
             (Call_inline image_2x2 header_4x4_full) header_4x4_full);
      try (vm_compute; reflexivity); vm_compute; discriminate.
Defined.




(** ** Asset tables *)

Lemma nth_drop {A} (n k : nat) (l : list A) d : nth k (drop n l) d = nth (n + k) l d.
Proof.
  revert l. induction n as [|n IH]; intros l; [reflexivity|].
  destruct l as [|a l]; simpl; [destruct k; reflexivity | apply IH].
Qed.

Lemma length_slice {A} (a b : nat) (l : list A) :
  length (slice a b l) = Nat.min (b - a) (length l - a).
Proof. unfold slice. rewrite length_take, length_drop. reflexivity. Qed.

Lemma u32_at_drop f pos k : u32_at f (pos + k) = u32_at (drop pos f) k.
Proof. unfold u32_at. rewrite !nth_drop, !Nat.add_assoc. reflexivity. Qed.

Lemma unpack_II_entry_at f pos :
  (pos + 8 <= length f)%nat ->
  unpack_II (file_read f pos 8) = Ok (entry_at f pos).
Proof.
  intros Hl. unfold file_read, unpack_II, entry_at.
  rewrite bool_decide_eq_true_2 by (rewrite length_slice; lia).
  rewrite <- (Nat.add_0_r pos) at 3. rewrite !u32_at_drop.
  assert (L : length (drop pos f) = (length f - pos)%nat) by apply length_drop.
  unfold slice. replace (pos + 8 - pos)%nat with 8%nat by lia.
  destruct (drop pos f) as [|b0 [|b1 [|b2 [|b3 [|b4 [|b5 [|b6 [|b7 r]]]]]]]];
    simpl in L; try lia.
  reflexivity.
Qed.

Lemma read_entries_spec f pos count :
  read_entries f pos count =
  Ok (map (fun i => entry_at f (pos + 8 * i)) (seq 0 (available_entries f pos count))).
Proof.
  unfold available_entries. revert pos. induction count as [|count IH]; intros pos.
  - reflexivity.
  - cbn [read_entries]. unfold file_read at 1. rewrite length_slice.
    destruct (Nat.ltb_spec (Nat.min (pos + 8 - pos) (length f - pos)) 8) as [Hlt|Hge].
    + replace ((length f - pos) / 8)%nat with 0%nat
        by (symmetry; apply Nat.div_small; lia).
      rewrite Nat.min_0_r. reflexivity.
    + rewrite unpack_II_entry_at by lia. rewrite IH. cbn [mbind result_bind].
      assert (D : ((length f - pos) / 8 = S ((length f - (pos + 8)) / 8))%nat).
      { replace (length f - pos)%nat with ((length f - (pos + 8)) + 1 * 8)%nat by lia.
        rewrite Nat.div_add by lia. lia. }
      rewrite D, <- Nat.succ_min_distr. cbn [seq map].
      rewrite Nat.mul_0_r, Nat.add_0_r. do 2 f_equal.
      rewrite <- seq_shift, map_map. apply map_ext. intros i. f_equal. lia.
Qed.

(** C5 (amended); X12. [read_asset_table] returns the records the source holds in
    full, decoded as little-endian u32 pairs in order: all [count] of them
    when [count * 8] bytes are available from [table_offset] on, fewer when
    the source is truncated; it does not fail. *)
Theorem read_asset_table_returns_available f table_offset count :
  read_asset_table f table_offset count =
    Ok (map (fun i => entry_at f (table_offset + 8 * i))
            (seq 0 (available_entries f table_offset count))) /\
  ((8 * count <= length f - table_offset)%nat ->
     available_entries f table_offset count = count) /\
  ((length f - table_offset < 8 * count)%nat ->
     (available_entries f table_offset count < count)%nat).
Proof.
  split; [apply read_entries_spec|]. unfold available_entries. split; intros Hl.
  - apply Nat.min_l. apply Nat.div_le_lower_bound; lia.
  - apply Nat.min_lt_iff. right. apply Nat.Div0.div_lt_upper_bound; lia.
Qed.

(** C5, counterexample. A table of two records read from a source that holds
    eleven bytes returns one record instead of failing. *)
Lemma truncated_table_is_read_short :
  read_asset_table (bytes_of [100; 0; 0; 0; 50; 0; 0; 0; 150; 0; 0]) 0 2 = Ok [(100, 50)].
Proof. vm_compute. reflexivity. Qed.

(** ** The marker scan *)

Lemma find_marker_from_Some data i n k :
  find_marker_from data i n = Some k ->
  (i <= k < i + n)%nat /\ slice k (k + 2) data = zlib_marker /\
  forall j, (i <= j < k)%nat -> slice j (j + 2) data <> zlib_marker.
Proof.
  revert i. induction n as [|n IH]; intros i; simpl; [discriminate|].
  case_bool_decide as M.
  - intros [= <-]. repeat split; [lia..|assumption|intros; lia].
  - intros E. apply IH in E as (R & S & N). repeat split; [lia..|assumption|].
    intros j Hj. destruct (decide (j = i)) as [->|]; [assumption | apply N; lia].
Qed.

Lemma find_marker_from_None data i n :
  find_marker_from data i n = None ->
  forall j, (i <= j < i + n)%nat -> slice j (j + 2) data <> zlib_marker.
Proof.
  revert i. induction n as [|n IH]; intros i; simpl; [intros; lia|].
  case_bool_decide as M; [discriminate|].
  intros E j Hj. destruct (decide (j = i)) as [->|]; [assumption | apply (IH _ E); lia].
Qed.

Lemma unpack_H_range bs v : unpack_H bs = Ok v -> 0 <= v <= 65535.
Proof.
  destruct bs as [|a [|b [|c bs]]]; simpl; try discriminate. intros [= <-].
  pose proof (b2z_range a). pose proof (b2z_range b). lia.
Qed.

Section DecodeFacts.
Context `{Zlib}.

Lemma pad_or_truncate_length expected px :
  0 <= expected -> len (pad_or_truncate expected px) = expected.
Proof.
  intros He. unfold pad_or_truncate, len.
  destruct (Z.ltb_spec (Z.of_nat (length px)) expected).
  - rewrite length_app, length_replicate. lia.
  - rewrite length_take. lia.
Qed.

Lemma Image_frombytes_exact m w h data :
  len data = w * h * bytes_per_pixel m ->
  Image_frombytes m w h data =
  Ok {| im_mode := m; im_width := w; im_height := h; im_data := data |}.
Proof.
  intros L. unfold Image_frombytes. rewrite <- L, Z.ltb_irrefl.
  unfold len. rewrite Nat2Z.id, firstn_all. reflexivity.
Qed.

(** C6 (amended); X13. [decode_chowdren_image] has no strict mode: when the
    payload inflates to a byte count other than [w * h * 4] it returns an
    image all the same, an RGB image when the count is [w * h * 3], and
    otherwise an RGBA image whose buffer is the inflated bytes padded with
    0xFF or truncated to [w * h * 4] bytes. *)
Theorem decode_pads_or_truncates data w h zlib_start pixel_data :
  unpack_H (slice 0 2 data) = Ok w ->
  unpack_H (slice 2 4 data) = Ok h ->
  find_marker_from data 0 (length data - 1) = Some zlib_start ->
  zlib_decompress (drop zlib_start data) = Some pixel_data ->
  len pixel_data <> w * h * 4 ->
  decode_chowdren_image data =
    Ok (if len pixel_data =? w * h * 3
        then {| im_mode := RGB; im_width := w; im_height := h; im_data := pixel_data |}
        else {| im_mode := RGBA; im_width := w; im_height := h;
                im_data := pad_or_truncate (w * h * 4) pixel_data |}) /\
  (len pixel_data <> w * h * 3 -> len (pad_or_truncate (w * h * 4) pixel_data) = w * h * 4).
Proof.
  intros Hw Hh Hm Hz Hne.
  pose proof (unpack_H_range _ _ Hw). pose proof (unpack_H_range _ _ Hh).
  split; [|intros; apply pad_or_truncate_length; lia].
  unfold decode_chowdren_image. rewrite Hw, Hh. cbn [mbind result_bind].
  rewrite Hm, Hz.
  destruct (Z.eqb_spec (len pixel_data) (w * h * 4)) as [|_]; [contradiction|].
  destruct (Z.eqb_spec (len pixel_data) (w * h * 3)) as [E3|_].
  - apply Image_frombytes_exact. simpl. assumption.
  - apply Image_frombytes_exact. simpl. rewrite Z.mul_1_r || idtac.
    apply pad_or_truncate_length. lia.
Qed.

End DecodeFacts.

Lemma decode_pads_or_truncates_witness :
  decode_chowdren_image blob_short_payload =
    Ok {| im_mode := RGBA; im_width := 1; im_height := 1;
          im_data := pad_or_truncate 4 (bytes_of [0x11; 0x22]) |}.
Proof.
  apply (decode_pads_or_truncates blob_short_payload 1 1 50 (bytes_of [0x11; 0x22]));
    try (vm_compute; reflexivity); vm_compute; discriminate.
Defined.

(** C6, counterexample. A 1x1 bitmap whose payload inflates to two bytes is
    decoded to a padded pixel buffer, not rejected. *)
Lemma decode_pads_short_payload :
  zlib_decompress (drop 50 blob_short_payload) = Some (bytes_of [0x11; 0x22]) /\
  decode_chowdren_image blob_short_payload =
    Ok {| im_mode := RGBA; im_width := 1; im_height := 1;
          im_data := bytes_of [0x11; 0x22; 0xff; 0xff] |}.
Proof. split; vm_compute; reflexivity. Qed.

(** C7 (amended); X14. [diagnose_bin_file] accepts a blob exactly when it has at
    least 50 bytes and its width and height are between 1 and 4096; the
    marker scan does not enter the verdict. *)
Theorem diagnose_bin_file_accepts data :
  diagnose_bin_file data = true <->
  50 <= len data /\
  exists w h, stored_size data = Ok (w, h) /\ 1 <= w <= 4096 /\ 1 <= h <= 4096.
Proof.
  unfold diagnose_bin_file, stored_size.
  destruct (Z.ltb_spec (len data) 50) as [Hlt|Hge].
  - split; [discriminate | lia].
  - destruct (unpack_H (slice 0 2 data)) as [w|e] eqn:Ew; cbn [mbind result_bind].
    2: { split; [discriminate | intros (_ & w & h & [=] & _)]. }
    destruct (unpack_H (slice 2 4 data)) as [h|e] eqn:Eh; cbn [mbind result_bind].
    2: { split; [discriminate | intros (_ & w' & h' & [=] & _)]. }
    pose proof (unpack_H_range _ _ Ew). pose proof (unpack_H_range _ _ Eh).
    assert (S : (48 <=? len data) = true) by (apply Z.leb_le; lia). rewrite S.
    destruct (unpack_H (slice 46 48 data)) as [n|e] eqn:En; cbn [mbind result_bind].
    2: { exfalso. revert En. unfold slice.
         assert (L : length (take (48 - 46) (drop 46 data)) = 2%nat)
           by (rewrite length_take, length_drop; unfold len in Hge; lia).
         destruct (take _ _) as [|a [|b [|c r]]]; simpl in L; try lia. discriminate. }
    destruct (Z.eqb_spec w 0), (Z.eqb_spec h 0); cbn [orb];
      try (split; [discriminate | intros (_ & w' & h' & [= <- <-] & ? & ?); lia]).
    destruct (Z.ltb_spec 4096 w), (Z.ltb_spec 4096 h); cbn [orb];
      try (split; [discriminate | intros (_ & w' & h' & [= <- <-] & ? & ?); lia]).
    split; [intros _ | reflexivity]. split; [assumption|]. exists w, h. repeat split; lia.
Qed.

(** C7, counterexample. A blob without marker is accepted, and so is a
    width of 4096. *)
Lemma diagnose_accepts_without_marker_and_at_4096 :
  (diagnose_bin_file blob_no_marker = true /\ has_zlib blob_no_marker = false) /\
  (diagnose_bin_file blob_4096 = true /\ stored_size blob_4096 = Ok (4096, 1)).
Proof. repeat split; vm_compute; reflexivity. Qed.

(** ** The repacker *)

Lemma laid_out_app a b c l1 l2 :
  laid_out a l1 b -> laid_out b l2 c -> laid_out a (l1 ++ l2) c.
Proof.
  revert a. induction l1 as [|[o s] l1 IH]; intros a; simpl.
  - intros ->. auto.
  - intros (-> & Hs & H1) H2. eauto.
Qed.

Lemma laid_out_le a l b : laid_out a l b -> a <= b.
Proof.
  revert a. induction l as [|[o s] l IH]; intros a; simpl.
  - lia.
  - intros (_ & Hs & H). apply IH in H. lia.
Qed.

Lemma laid_out_lookup a l b k o s :
  laid_out a l b -> l !! k = Some (o, s) ->
  a <= o /\ 0 <= s /\ o + s <= b /\ laid_out a (take k l) o /\ laid_out (o + s) (drop (S k) l) b.
Proof.
  revert a k. induction l as [|[o' s'] l IH]; intros a k; simpl; [discriminate|].
  intros (-> & Hs & H) Hk. destruct k as [|k]; simpl in Hk.
  - injection Hk as -> ->. apply laid_out_le in H as Hle. simpl. repeat split; auto; lia.
  - destruct (IH _ _ H Hk) as (? & ? & ? & ? & ?). simpl. repeat split; auto; lia.
Qed.

Lemma laid_out_disjoint a l b j k oj sj ok sk :
  laid_out a l b -> (j < k)%nat ->
  l !! j = Some (oj, sj) -> l !! k = Some (ok, sk) -> oj + sj <= ok.
Proof.
  intros H Hjk Hj Hk.
  destruct (laid_out_lookup _ _ _ _ _ _ H Hj) as (_ & _ & _ & _ & Hd).
  assert (Hk' : drop (S j) l !! (k - S j)%nat = Some (ok, sk)).
  { rewrite lookup_drop. rewrite <- Hk. f_equal. lia. }
  destruct (laid_out_lookup _ _ _ _ _ _ Hd Hk') as (? & _). assumption.
Qed.

Lemma laid_out_next a l b k o s o' s' :
  laid_out a l b -> l !! k = Some (o, s) -> l !! S k = Some (o', s') -> o' = o + s.
Proof.
  intros H Hk Hk'.
  destruct (laid_out_lookup _ _ _ _ _ _ H Hk) as (_ & _ & _ & _ & Hd).
  rewrite <- (Nat.add_0_r (S k)), <- lookup_drop in Hk'.
  destruct (drop (S k) l) as [|[o2 s2] r]; [discriminate|].
  injection Hk' as -> ->. simpl in Hd. apply Hd.
Qed.

Lemma sizes_nonneg_insert table i o s :
  sizes_nonneg table -> 0 <= s -> sizes_nonneg (<[i := (o, s)]> table).
Proof.
  intros Ht Hs. unfold sizes_nonneg in *. rewrite Forall_forall in *.
  intros e He. apply list_elem_of_lookup in He as [j Hj].
  destruct (decide (j = i)) as [->|Hne].
  - destruct (decide (i < length table)%nat).
    + rewrite list_lookup_insert_eq in Hj by assumption. injection Hj as <-. assumption.
    + rewrite list_insert_ge in Hj by lia. apply Ht, list_elem_of_lookup. eauto.
  - rewrite list_lookup_insert_ne in Hj by congruence.
    apply Ht, list_elem_of_lookup. eauto.
Qed.

Lemma copy_original_writes orig_f : writes_record (copy_original orig_f).
Proof.
  intros i st st' Hn E. unfold copy_original in E.
  destruct (rs_table st !! i) as [[o s]|] eqn:L; [|discriminate].
  injection E as <-. exists s. simpl. repeat split; auto.
  - unfold sizes_nonneg in Hn. rewrite Forall_forall in Hn.
    apply (Hn (o, s)). apply list_elem_of_lookup. eauto.
  - eapply lookup_lt_Some; eassumption.
Qed.

Lemma repack_step_writes orig_f modified : writes_record (repack_step orig_f modified).
Proof.
  intros i st st' Hn E. unfold repack_step in E.
  destruct (modified !! i) as [data|]; [|eapply copy_original_writes; eassumption].
  unfold write_modified in E.
  destruct (rs_table st !! i) as [e|] eqn:L; [|discriminate].
  injection E as <-. exists (len data). simpl. repeat split; auto.
  - unfold len. lia.
  - eapply lookup_lt_Some; eassumption.
Qed.

Lemma for_range_writes body i n st st' :
  writes_record body -> sizes_nonneg (rs_table st) ->
  for_range body i n st = Ok st' ->
  length (rs_table st') = length (rs_table st) /\
  (n = 0%nat \/ (i + n <= length (rs_table st))%nat) /\
  take i (rs_table st') = take i (rs_table st) /\
  drop (i + n) (rs_table st') = drop (i + n) (rs_table st) /\
  laid_out (rs_current_offset st) (take n (drop i (rs_table st'))) (rs_current_offset st') /\
  sizes_nonneg (rs_table st').
Proof.
  intros Hb. revert i st. induction n as [|n IH]; intros i st Hn E; cbn [for_range] in E.
  - injection E as <-. rewrite Nat.add_0_r. repeat split; auto.
  - apply bind_Ok in E as (st1 & E1 & E).
    destruct (Hb _ _ _ Hn E1) as (s & Hs & Hi & HT & Hc).
    assert (Hn1 : sizes_nonneg (rs_table st1)) by (rewrite HT; apply sizes_nonneg_insert; auto).
    destruct (IH _ _ Hn1 E) as (L & B & Tk & Dr & Lo & Nn).
    rewrite HT, length_insert in L.
    assert (Hi' : rs_table st' !! i = Some (rs_current_offset st, s)).
    { rewrite <- (lookup_take_lt _ (S i)) by lia. rewrite Tk, HT.
      rewrite lookup_take_lt by lia. apply list_lookup_insert_eq. assumption. }
    repeat split; auto.
    + right. destruct B as [->|B]; [lia|]. rewrite HT, length_insert in B. lia.
    + replace i with (Nat.min i (S i)) at 1 2 by lia.
      rewrite <- !take_take, Tk, HT, !take_take.
      replace (Nat.min i (S i)) with i by lia. apply take_insert_ge. lia.
    + replace (i + S n)%nat with (S i + n)%nat by lia. rewrite Dr, HT.
      apply drop_insert_lt. lia.
    + rewrite (drop_S _ _ _ Hi'). cbn [take laid_out firstn]. rewrite <- Hc. auto.
Qed.

Lemma for_range_shader orig_f i n st st' :
  sizes_nonneg (rs_table st) -> 0 < rs_current_offset st ->
  for_range (shader_step orig_f) i n st = Ok st' ->
  length (rs_table st') = length (rs_table st) /\
  (n = 0%nat \/ (i + n <= length (rs_table st))%nat) /\
  take i (rs_table st') = take i (rs_table st) /\
  drop (i + n) (rs_table st') = drop (i + n) (rs_table st) /\
  laid_out (rs_current_offset st)
    (List.filter is_written (take n (drop i (rs_table st')))) (rs_current_offset st') /\
  sizes_nonneg (rs_table st') /\
  (forall k e, (i <= k < i + n)%nat -> rs_table st !! k = Some e ->
     is_written e = false -> rs_table st' !! k = Some e) /\
  (forall k e, (i <= k < i + n)%nat -> rs_table st' !! k = Some e ->
     is_written e = false -> rs_table st !! k = Some e).
Proof.
  revert i st. induction n as [|n IH]; intros i st Hn Hc E; cbn [for_range] in E.
  - injection E as <-. rewrite Nat.add_0_r. repeat split; auto; intros; lia.
  - apply bind_Ok in E as (st1 & E1 & E). unfold shader_step in E1.
    destruct (rs_table st !! i) as [[o s]|] eqn:Li; [|discriminate].
    pose proof (lookup_lt_Some _ _ _ Li) as Hi.
    change ((0 <? s) && (0 <? o)) with (is_written (o, s)) in E1.
    destruct (is_written (o, s)) eqn:W.
    + destruct (copy_original_writes _ _ _ _ Hn E1) as (s' & Hs & _ & HT & Hc1).
      assert (s' = s) as ->.
      { unfold copy_original in E1. rewrite Li in E1. injection E1 as <-. simpl in HT.
        apply (f_equal (fun t => t !! i)) in HT.
        rewrite !list_lookup_insert_eq in HT by assumption. congruence. }
      assert (Hn1 : sizes_nonneg (rs_table st1))
        by (rewrite HT; apply sizes_nonneg_insert; auto).
      assert (Hc' : 0 < rs_current_offset st1) by lia.
      destruct (IH _ _ Hn1 Hc' E) as (L & B & Tk & Dr & Lo & Nn & Un & Un').
      rewrite HT, length_insert in L.
      assert (Hi' : rs_table st' !! i = Some (rs_current_offset st, s)).
      { rewrite <- (lookup_take_lt _ (S i)) by lia. rewrite Tk, HT.
        rewrite lookup_take_lt by lia. apply list_lookup_insert_eq. assumption. }
      assert (W' : is_written (rs_current_offset st, s) = true).
      { unfold is_written in *. simpl in *. apply andb_true_iff in W as [W _].
        rewrite W. simpl. apply Z.ltb_lt. assumption. }
      repeat split; auto.
      * right. destruct B as [->|B]; [lia|]. rewrite HT, length_insert in B. lia.
      * replace i with (Nat.min i (S i)) at 1 2 by lia.
        rewrite <- !take_take, Tk, HT, !take_take.
        replace (Nat.min i (S i)) with i by lia. apply take_insert_ge. lia.
      * replace (i + S n)%nat with (S i + n)%nat by lia. rewrite Dr, HT.
        apply drop_insert_lt. lia.
      * rewrite (drop_S _ _ _ Hi'). cbn [take firstn List.filter]. rewrite W'.
        cbn [laid_out]. rewrite <- Hc1. auto.
      * intros k e Hk Lk We. destruct (decide (k = i)) as [->|Hne]; [congruence|].
        apply Un; [lia| |assumption]. rewrite HT, list_lookup_insert_ne by congruence.
        assumption.
      * intros k e Hk Lk We. destruct (decide (k = i)) as [->|Hne]; [congruence|].
        rewrite <- (list_lookup_insert_ne (rs_table st) i k (rs_current_offset st, s))
          by congruence.
        rewrite <- HT. apply Un'; [lia|assumption..].
    + injection E1 as <-.
      destruct (IH _ _ Hn Hc E) as (L & B & Tk & Dr & Lo & Nn & Un & Un').
      assert (Hi' : rs_table st' !! i = Some (o, s)).
      { rewrite <- (lookup_take_lt _ (S i)) by lia. rewrite Tk.
        rewrite lookup_take_lt by lia. assumption. }
      repeat split; auto.
      * right. destruct B as [->|B]; lia.
      * replace i with (Nat.min i (S i)) at 1 2 by lia.
        rewrite <- !take_take, Tk, !take_take. reflexivity.
      * replace (i + S n)%nat with (S i + n)%nat by lia. assumption.
      * rewrite (drop_S _ _ _ Hi'). cbn [take firstn List.filter]. rewrite W. assumption.
      * intros k e Hk Lk We. destruct (decide (k = i)) as [->|Hne]; [congruence|].
        apply Un; [lia|assumption..].
      * intros k e Hk Lk We. destruct (decide (k = i)) as [->|Hne]; [congruence|].
        apply Un'; [lia|assumption..].
Qed.

Lemma u32_at_range f pos : 0 <= u32_at f pos <= 4294967295.
Proof.
  unfold u32_at.
  pose proof (b2z_range (nth pos f x00)). pose proof (b2z_range (nth (pos + 1) f x00)).
  pose proof (b2z_range (nth (pos + 2) f x00)). pose proof (b2z_range (nth (pos + 3) f x00)).
  lia.
Qed.

Lemma read_asset_table_Ok f table_offset count table :
  read_asset_table f table_offset count = Ok table ->
  (length table <= count)%nat /\ sizes_nonneg table /\
  Forall (fun e => 0 <= e.1 <= 4294967295 /\ 0 <= e.2 <= 4294967295) table.
Proof.
  unfold read_asset_table. rewrite read_entries_spec. intros [= <-].
  rewrite length_map, length_seq. unfold available_entries, sizes_nonneg.
  split; [lia|]. split; apply Forall_map, Forall_forall; intros i _; simpl.
  - apply u32_at_range.
  - split; apply u32_at_range.
Qed.

Lemma metadata_size_pos : 0 < metadata_size.
Proof. unfold metadata_size, IMAGE_COUNT, SOUND_COUNT, FONT_COUNT, SHADER_COUNT. lia. Qed.

Lemma full_segment {A} (n : nat) (l : list A) :
  (length l <= n)%nat -> (n = 0%nat \/ (0 + n <= length l)%nat) ->
  length l = n /\ take n (drop 0 l) = l.
Proof.
  intros H1 H2. assert (length l = n) by lia. split; [assumption|].
  rewrite drop_0. apply take_ge. lia.
Qed.

Lemma repack_assets_spec orig_f modified_images modified_sounds res :
  repack_assets orig_f modified_images modified_sounds = Ok res ->
  exists shader_table,
    read_asset_table orig_f TABLE_OFFSETS_shaders SHADER_COUNT = Ok shader_table /\
    length (rr_image_table res) = IMAGE_COUNT /\
    length (rr_sound_table res) = SOUND_COUNT /\
    length (rr_font_table res) = FONT_COUNT /\
    length (rr_shader_table res) = SHADER_COUNT /\
    laid_out metadata_size (written_records res) (rr_final_size res) /\
    (forall k e, shader_table !! k = Some e -> is_written e = false ->
       rr_shader_table res !! k = Some e).
Proof.
  intros E. unfold repack_assets in E.
  apply bind_Ok in E as (T1 & R1 & E). apply bind_Ok in E as (T2 & R2 & E).
  apply bind_Ok in E as (T3 & R3 & E). apply bind_Ok in E as (T4 & R4 & E).
  apply bind_Ok in E as (st1 & L1 & E). apply bind_Ok in E as (st2 & L2 & E).
  apply bind_Ok in E as (st3 & L3 & E). apply bind_Ok in E as (st4 & L4 & E).
  apply bind_Ok in E as (f1 & _ & E). apply bind_Ok in E as (f2 & _ & E).
  apply bind_Ok in E as (f3 & _ & E). apply bind_Ok in E as (f4 & _ & E).
  injection E as <-. exists T4. split; [assumption|].
  unfold written_records. cbn [rr_image_table rr_sound_table rr_font_table
    rr_shader_table rr_final_size].
  apply read_asset_table_Ok in R1 as (B1 & N1 & _), R2 as (B2 & N2 & _),
    R3 as (B3 & N3 & _), R4 as (B4 & N4 & _).
  apply for_range_writes in L1 as (A1 & C1 & _ & _ & W1 & _);
    [|apply repack_step_writes|assumption].
  apply for_range_writes in L2 as (A2 & C2 & _ & _ & W2 & _);
    [|apply repack_step_writes|assumption].
  apply for_range_writes in L3 as (A3 & C3 & _ & _ & W3 & _);
    [|apply copy_original_writes|assumption].
  cbn [rs_table rs_current_offset rs_new_f] in *.
  pose proof (laid_out_le _ _ _ W1). pose proof (laid_out_le _ _ _ W2).
  pose proof (laid_out_le _ _ _ W3). pose proof metadata_size_pos.
  apply for_range_shader in L4 as (A4 & C4 & _ & _ & W4 & _ & U4 & _);
    [|assumption|cbn [rs_current_offset]; lia].
  cbn [rs_table rs_current_offset rs_new_f] in *.
  rewrite <- A1 in B1, C1. rewrite <- A2 in B2, C2.
  rewrite <- A3 in B3, C3. rewrite <- A4 in B4, C4.
  destruct (full_segment _ _ B1 C1) as (-> & X1). destruct (full_segment _ _ B2 C2) as (-> & X2).
  destruct (full_segment _ _ B3 C3) as (-> & X3). destruct (full_segment _ _ B4 C4) as (-> & X4).
  rewrite X1 in W1. rewrite X2 in W2. rewrite X3 in W3. rewrite X4 in W4.
  repeat split; auto.
  - eauto using laid_out_app.
  - intros k e Lk We. apply U4; [|assumption..].
    apply lookup_lt_Some in Lk. lia.
Qed.

(** *** When [repack_assets] returns *)

Lemma sizes_within_insert B table i o s :
  sizes_within B table -> 0 <= s <= B -> sizes_within B (<[i := (o, s)]> table).
Proof.
  intros Ht Hs. unfold sizes_within in *. rewrite Forall_forall in *.
  intros e He. apply list_elem_of_lookup in He as [j Hj].
  destruct (decide (j = i)) as [->|Hne].
  - destruct (decide (i < length table)%nat).
    + rewrite list_lookup_insert_eq in Hj by assumption. injection Hj as <-. assumption.
    + rewrite list_insert_ge in Hj by lia. apply Ht, list_elem_of_lookup. eauto.
  - rewrite list_lookup_insert_ne in Hj by congruence.
    apply Ht, list_elem_of_lookup. eauto.
Qed.

Lemma sizes_within_lookup B table i o s :
  sizes_within B table -> table !! i = Some (o, s) -> 0 <= s <= B.
Proof.
  unfold sizes_within. rewrite Forall_forall. intros Ht L.
  apply (Ht (o, s)), list_elem_of_lookup. eauto.
Qed.

Lemma copy_original_succeeds B orig_f : step_succeeds B (copy_original orig_f).
Proof.
  intros i st Hn Hi. unfold copy_original.
  destruct (lookup_lt_is_Some_2 _ _ Hi) as [[o s] L]. rewrite L.
  pose proof (sizes_within_lookup _ _ _ _ _ Hn L).
  eexists. split; [reflexivity|]. cbn [rs_table rs_current_offset].
  rewrite length_insert. repeat split; [|lia]. apply sizes_within_insert; auto.
Qed.

Lemma repack_step_succeeds B orig_f modified :
  files_within B modified -> step_succeeds B (repack_step orig_f modified).
Proof.
  intros Hm i st Hn Hi. unfold repack_step.
  destruct (modified !! i) as [data|] eqn:M; [|apply copy_original_succeeds; assumption].
  unfold write_modified.
  destruct (lookup_lt_is_Some_2 _ _ Hi) as [e L]. rewrite L.
  pose proof (Hm _ _ M). assert (0 <= len data) by (unfold len; lia).
  eexists. split; [reflexivity|]. cbn [rs_table rs_current_offset].
  rewrite length_insert. repeat split; [|lia]. apply sizes_within_insert; auto.
Qed.

Lemma shader_step_succeeds B orig_f : 0 <= B -> step_succeeds B (shader_step orig_f).
Proof.
  intros HB i st Hn Hi. unfold shader_step.
  destruct (lookup_lt_is_Some_2 _ _ Hi) as [[o s] L]. rewrite L.
  destruct (andb _ _); [apply copy_original_succeeds; assumption|].
  eexists. split; [reflexivity|]. repeat split; auto. lia.
Qed.

Lemma for_range_succeeds B body i n st :
  step_succeeds B body -> sizes_within B (rs_table st) ->
  (i + n <= length (rs_table st))%nat ->
  exists st', for_range body i n st = Ok st' /\
    rs_current_offset st' <= rs_current_offset st + Z.of_nat n * B.
Proof.
  intros Hb. revert i st. induction n as [|n IH]; intros i st Hn Hi; cbn [for_range].
  - eexists. split; [reflexivity|]. lia.
  - destruct (Hb i st Hn) as (st1 & E1 & L1 & N1 & C1); [lia|].
    rewrite E1. cbn [mbind result_bind].
    destruct (IH (S i) st1 N1) as (st' & E & C); [lia|].
    exists st'. split; [assumption|]. lia.
Qed.

Lemma write_entries_succeeds f pos entries :
  Forall u32_record entries -> exists f', write_entries f pos entries = Ok f'.
Proof.
  intros He. revert f pos. induction He as [|[o s] entries [Ho Hs] _ IH]; intros f pos.
  - eexists; reflexivity.
  - cbn [write_entries]. unfold pack_II, pack_I. simpl in Ho, Hs.
    rewrite !(proj2 (andb_true_iff _ _)) by (split; apply Z.leb_le; lia).
    cbn [mbind result_bind]. apply IH.
Qed.

Lemma laid_out_u32 a l b :
  laid_out a l b -> 0 <= a -> b <= 4294967295 -> Forall u32_record l.
Proof.
  intros H Ha Hb. apply Forall_forall. intros [o s] He.
  apply list_elem_of_lookup in He as [k Hk].
  destruct (laid_out_lookup _ _ _ _ _ _ H Hk) as (? & ? & ? & _).
  unfold u32_record. simpl. lia.
Qed.

Lemma sizes_within_nonneg B table : sizes_within B table -> sizes_nonneg table.
Proof. intros H. eapply Forall_impl; [exact H|]. intros e He. simpl in He. lia. Qed.

Lemma read_asset_table_full f table_offset count :
  (table_offset + 8 * count <= length f)%nat ->
  exists table, read_asset_table f table_offset count = Ok table /\ length table = count /\
    Forall u32_record table.
Proof.
  intros Hl. eexists. split; [apply read_entries_spec|].
  rewrite length_map, length_seq. split.
  - unfold available_entries. apply Nat.min_l. apply Nat.div_le_lower_bound; lia.
  - apply Forall_map, Forall_forall. intros i _. split; apply u32_at_range.
Qed.


Lemma shader_table_u32 a table table' b :
  Forall u32_record table -> length table' = length table ->
  laid_out a (List.filter is_written table') b -> 0 <= a -> b <= 4294967295 ->
  (forall k e, table' !! k = Some e -> is_written e = false -> table !! k = Some e) ->
  Forall u32_record table'.
Proof.
  intros Hu Hl Hlo Ha Hb Hk. apply Forall_forall. intros e He.
  destruct (is_written e) eqn:W.
  - pose proof (laid_out_u32 _ _ _ Hlo Ha Hb) as F. rewrite Forall_forall in F.
    apply F. apply list_elem_of_In, filter_In. split; [apply list_elem_of_In|]; assumption.
  - apply list_elem_of_lookup in He as [k Lk]. rewrite Forall_forall in Hu.
    apply Hu, list_elem_of_lookup. eauto.
Qed.

(** [repack_assets] returns when the archive holds the four tables in full
    and no asset, original or modified, is larger than a bound [B] under
    which the repacked archive stays addressable by 32-bit offsets. *)
Lemma repack_assets_succeeds B orig_f modified_images modified_sounds :
  0 <= B ->
  (TABLE_OFFSETS_shaders + 8 * SHADER_COUNT <= length orig_f)%nat ->
  table_sizes_within B orig_f TABLE_OFFSETS_images IMAGE_COUNT ->
  table_sizes_within B orig_f TABLE_OFFSETS_sounds SOUND_COUNT ->
  table_sizes_within B orig_f TABLE_OFFSETS_fonts FONT_COUNT ->
  table_sizes_within B orig_f TABLE_OFFSETS_shaders SHADER_COUNT ->
  files_within B modified_images -> files_within B modified_sounds ->
  metadata_size +
    Z.of_nat (IMAGE_COUNT + SOUND_COUNT + FONT_COUNT + SHADER_COUNT) * B <= 4294967295 ->
  exists res, repack_assets orig_f modified_images modified_sounds = Ok res.
Proof.
  intros HB Hlen S1 S2 S3 S4 M1 M2 Hfit.
  pose proof metadata_size_pos as Hpos.
  destruct (read_asset_table_full orig_f TABLE_OFFSETS_images IMAGE_COUNT) as (T1 & R1 & N1 & _).
  { revert Hlen. unfold TABLE_OFFSETS_images, TABLE_OFFSETS_shaders, IMAGE_COUNT, SHADER_COUNT. lia. }
  destruct (read_asset_table_full orig_f TABLE_OFFSETS_sounds SOUND_COUNT) as (T2 & R2 & N2 & _).
  { revert Hlen. unfold TABLE_OFFSETS_sounds, TABLE_OFFSETS_shaders, SOUND_COUNT, SHADER_COUNT. lia. }
  destruct (read_asset_table_full orig_f TABLE_OFFSETS_fonts FONT_COUNT) as (T3 & R3 & N3 & _).
  { revert Hlen. unfold TABLE_OFFSETS_fonts, TABLE_OFFSETS_shaders, FONT_COUNT, SHADER_COUNT. lia. }
  destruct (read_asset_table_full orig_f TABLE_OFFSETS_shaders SHADER_COUNT) as (T4 & R4 & N4 & U4);
    [assumption|].
  specialize (S1 _ R1). specialize (S2 _ R2). specialize (S3 _ R3). specialize (S4 _ R4).
  unfold repack_assets. rewrite R1, R2, R3, R4. cbn [mbind result_bind].
  set (st0 := {| rs_new_f := _; rs_table := T1; rs_current_offset := metadata_size |}).
  destruct (for_range_succeeds B (repack_step orig_f modified_images) 0 IMAGE_COUNT st0)
    as (st1 & L1 & C1); [apply repack_step_succeeds; assumption|assumption|simpl; lia|].
  rewrite L1. cbn [mbind result_bind].
  apply for_range_writes in L1 as (A1 & _ & _ & _ & W1 & _);
    [|apply repack_step_writes|eapply sizes_within_nonneg; eassumption].
  set (st1' := {| rs_new_f := rs_new_f st1; rs_table := T2;
                  rs_current_offset := rs_current_offset st1 |}).
  destruct (for_range_succeeds B (repack_step orig_f modified_sounds) 0 SOUND_COUNT st1')
    as (st2 & L2 & C2); [apply repack_step_succeeds; assumption|assumption|simpl; lia|].
  rewrite L2. cbn [mbind result_bind].
  apply for_range_writes in L2 as (A2 & _ & _ & _ & W2 & _);
    [|apply repack_step_writes|eapply sizes_within_nonneg; eassumption].
  set (st2' := {| rs_new_f := rs_new_f st2; rs_table := T3;
                  rs_current_offset := rs_current_offset st2 |}).
  destruct (for_range_succeeds B (copy_original orig_f) 0 FONT_COUNT st2')
    as (st3 & L3 & C3); [apply copy_original_succeeds|assumption|simpl; lia|].
  rewrite L3. cbn [mbind result_bind].
  apply for_range_writes in L3 as (A3 & _ & _ & _ & W3 & _);
    [|apply copy_original_writes|eapply sizes_within_nonneg; eassumption].
  set (st3' := {| rs_new_f := rs_new_f st3; rs_table := T4;
                  rs_current_offset := rs_current_offset st3 |}).
  destruct (for_range_succeeds B (shader_step orig_f) 0 SHADER_COUNT st3')
    as (st4 & L4 & C4); [apply shader_step_succeeds; assumption|assumption|simpl; lia|].
  rewrite L4. cbn [mbind result_bind].
  subst st0 st1' st2' st3'. cbn [rs_table rs_current_offset rs_new_f] in *.
  pose proof (laid_out_le _ _ _ W1). pose proof (laid_out_le _ _ _ W2).
  pose proof (laid_out_le _ _ _ W3).
  apply for_range_shader in L4 as (A4 & _ & _ & _ & W4 & _ & _ & K4);
    [|eapply sizes_within_nonneg; eassumption|cbn [rs_current_offset]; lia].
  cbn [rs_table rs_current_offset rs_new_f] in *.
  pose proof (laid_out_le _ _ _ W4).
  assert (Hend : rs_current_offset st4 <= 4294967295).
  { rewrite !Nat2Z.inj_add in Hfit. lia. }
  rewrite drop_0, take_ge in W1, W2, W3, W4 by lia.
  cbn [mbind result_bind].
  assert (F1 : Forall u32_record (rs_table st1)) by (eapply laid_out_u32; [eassumption|lia..]).
  assert (F2 : Forall u32_record (rs_table st2)) by (eapply laid_out_u32; [eassumption|lia..]).
  assert (F3 : Forall u32_record (rs_table st3)) by (eapply laid_out_u32; [eassumption|lia..]).
  assert (F4 : Forall u32_record (rs_table st4)).
  { eapply (shader_table_u32 _ T4); try eassumption; try lia.
    intros k e Lk We. apply K4; [|assumption..]. apply lookup_lt_Some in Lk. lia. }
  unfold write_asset_table.
  destruct (write_entries_succeeds (rs_new_f st4) TABLE_OFFSETS_images _ F1) as (f1 & ->).
  cbn [mbind result_bind].
  destruct (write_entries_succeeds f1 TABLE_OFFSETS_sounds _ F2) as (f2 & ->).
  cbn [mbind result_bind].
  destruct (write_entries_succeeds f2 TABLE_OFFSETS_fonts _ F3) as (f3 & ->).
  cbn [mbind result_bind].
  destruct (write_entries_succeeds f3 TABLE_OFFSETS_shaders _ F4) as (f4 & ->).
  cbn [mbind result_bind]. eexists. reflexivity.
Qed.

(** C4 (amended); X15. After [repack_assets] returns, the four tables keep
    their record counts and the records it wrote (every image, sound and
    font record, and the shader records that pass the guard of the shader
    loop) lie back to back
    from [metadata_size] to the final size, in table-then-index order: each
    offset is the running offset when the asset was written, at least
    [metadata_size]; the ranges do not overlap and leave no gap.  A shader
    record of size 0 or offset 0 keeps its original offset and size. *)
Theorem repack_lays_out_written_records orig_f modified_images modified_sounds res :
  repack_assets orig_f modified_images modified_sounds = Ok res ->
  let recs := written_records res in
  (length (rr_image_table res) = IMAGE_COUNT /\
   length (rr_sound_table res) = SOUND_COUNT /\
   length (rr_font_table res) = FONT_COUNT /\
   length (rr_shader_table res) = SHADER_COUNT) /\
  laid_out metadata_size recs (rr_final_size res) /\
  (forall k o s, recs !! k = Some (o, s) ->
     metadata_size <= o /\ laid_out metadata_size (take k recs) o /\
     0 <= s /\ o + s <= rr_final_size res) /\
  (forall j k oj sj ok sk, (j < k)%nat ->
     recs !! j = Some (oj, sj) -> recs !! k = Some (ok, sk) -> oj + sj <= ok) /\
  (forall k o s o' s',
     recs !! k = Some (o, s) -> recs !! S k = Some (o', s') -> o' = o + s) /\
  (forall shader_table k e,
     read_asset_table orig_f TABLE_OFFSETS_shaders SHADER_COUNT = Ok shader_table ->
     shader_table !! k = Some e -> is_written e = false ->
     rr_shader_table res !! k = Some e).
Proof.
  intros E recs.
  destruct (repack_assets_spec _ _ _ _ E) as (T4 & R4 & L1 & L2 & L3 & L4 & Lo & K).
  fold recs in Lo.
  split; [auto|]. split; [assumption|]. split; [|split; [|split]].
  - intros k o s Lk.
    destruct (laid_out_lookup _ _ _ _ _ _ Lo Lk) as (? & ? & ? & ? & _). auto.
  - intros j k oj sj ok sk. apply (laid_out_disjoint _ _ _ _ _ _ _ _ _ Lo).
  - intros k o s o' s'. apply (laid_out_next _ _ _ _ _ _ _ _ Lo).
  - intros T k e R. rewrite R4 in R. injection R as <-. apply K.
Qed.

Lemma nth_zeros n k : nth k (zeros n) x00 = x00.
Proof.
  unfold zeros. revert k. induction n as [|n IH]; intros [|k]; simpl; auto.
Qed.

Lemma entry_at_zeros n pos : entry_at (zeros n) pos = (0, 0).
Proof. unfold entry_at, u32_at. rewrite !nth_zeros. reflexivity. Qed.

Lemma empty_archive_tables table_offset count :
  table_sizes_within 0 empty_archive table_offset count.
Proof.
  intros T. unfold read_asset_table. rewrite read_entries_spec. intros [= <-].
  apply Forall_map, Forall_forall. intros i _. unfold empty_archive.
  rewrite entry_at_zeros. simpl. lia.
Qed.

Lemma read_asset_table_lookup f table_offset count table k :
  read_asset_table f table_offset count = Ok table -> (k < length table)%nat ->
  table !! k = Some (entry_at f (table_offset + 8 * k)).
Proof.
  unfold read_asset_table. rewrite read_entries_spec. intros [= <-].
  rewrite length_map, length_seq. intros Hk.
  rewrite list_lookup_fmap, lookup_seq_lt by assumption. reflexivity.
Qed.

Lemma empty_archive_repacks modified_images B :
  0 <= B -> files_within B modified_images ->
  metadata_size +
    Z.of_nat (IMAGE_COUNT + SOUND_COUNT + FONT_COUNT + SHADER_COUNT) * B <= 4294967295 ->
  exists res,
    repack_assets empty_archive modified_images ∅ = Ok res /\
    rr_shader_table res !! 0%nat = Some (0, 0).
Proof.
  intros HB Hm Hfit.
  assert (Hlen : (TABLE_OFFSETS_shaders + 8 * SHADER_COUNT <= length empty_archive)%nat).
  { unfold empty_archive, zeros. rewrite length_replicate.
    unfold TABLE_OFFSETS_shaders, SHADER_COUNT. lia. }
  assert (Ht : forall o c, table_sizes_within B empty_archive o c).
  { intros o c T R. eapply Forall_impl; [apply (empty_archive_tables o c T R)|].
    intros e He. simpl in He. lia. }
  assert (Hs : files_within B (∅ : gmap nat bytes)).
  { intros i data. rewrite lookup_empty. discriminate. }
  pose proof (repack_assets_succeeds B empty_archive modified_images ∅) as X.
  specialize (X HB Hlen). specialize (X (Ht _ _) (Ht _ _) (Ht _ _) (Ht _ _)).
  specialize (X Hm Hs Hfit). destruct X as [res E].
  exists res. split; [exact E|].
  destruct (repack_assets_spec _ _ _ _ E) as (T4 & R4 & _ & _ & _ & _ & _ & K).
  apply K; [|reflexivity].
  destruct (read_asset_table_full empty_archive TABLE_OFFSETS_shaders SHADER_COUNT Hlen)
    as (T & R & L & _).
  rewrite R4 in R. injection R as <-.
  rewrite (read_asset_table_lookup _ _ _ _ 0%nat R4) by (rewrite L; unfold SHADER_COUNT; lia).
  unfold empty_archive. rewrite entry_at_zeros. reflexivity.
Qed.

(** A shader record of size 0 is skipped by the shader loop: after
    repacking the archive of zero bytes its offset is still 0, below
    [metadata_size]. *)
Lemma repack_keeps_skipped_shader_offset :
  exists res,
    repack_assets empty_archive ∅ ∅ = Ok res /\
    rr_shader_table res !! 0%nat = Some (0, 0) /\ 0 < metadata_size.
Proof.
  destruct (empty_archive_repacks ∅ 0) as (res & E & S).
  - lia.
  - intros i data. rewrite lookup_empty. discriminate.
  - unfold metadata_size, IMAGE_COUNT, SOUND_COUNT, FONT_COUNT, SHADER_COUNT. lia.
  - exists res. auto using metadata_size_pos.
Qed.

Lemma repack_lays_out_written_records_witness :
  exists res,
    repack_assets empty_archive {[ 1%nat := bytes_of [1; 2; 3; 4] ]} ∅ = Ok res /\
    laid_out metadata_size (written_records res) (rr_final_size res) /\
    (forall k o s, written_records res !! k = Some (o, s) -> metadata_size <= o).
Proof.
  destruct (empty_archive_repacks {[ 1%nat := bytes_of [1; 2; 3; 4] ]} 4) as (res & E & _).
  - lia.
  - intros i data [<- <-]%lookup_singleton_Some. vm_compute. discriminate.
  - unfold metadata_size, IMAGE_COUNT, SOUND_COUNT, FONT_COUNT, SHADER_COUNT. lia.
  - exists res. split; [exact E|].
    pose proof (repack_lays_out_written_records _ _ _ _ E) as (_ & Lo & Hk & _).
    split; [exact Lo|]. intros k o s L. apply (Hk k o s L).
Defined.

(** ** The two encoders against the decoders *)

(** C1. The blob returned for the 2x2 image carries the level-9 stream
    header [78 DA] at offset 50, and [decode_chowdren_image], which scans
    for [78 9C], does not find the payload: the round trip fails. *)
Theorem roundtrip_fails :
  encode_chowdren_image image_2x2 None None = Ok blob_2x2 /\
  decode_chowdren_image blob_2x2 = Err MarkerNotFound.
Proof. split; vm_compute; reflexivity. Qed.

(** C10. Both encoders succeed on the 4x4 image and both blobs decode, to
    different pixel buffers: the scan of the blob of [encode_chowdren_image]
    skips the [78 DA] payload and stops at the stream inside the stored
    pixels. *)
Theorem encoders_disagree :
  exists blob1 blob2,
    encode_chowdren_image image_4x4 (Some header_4x4) None = Ok blob1 /\
    encode_chowdren_image_inline image_4x4 header_4x4 = Ok blob2 /\
    decode_chowdren_image_inline blob1 =
      Ok {| im_mode := RGBA; im_width := 4; im_height := 4; im_data := zeros 64 |} /\
    decode_chowdren_image_inline blob2 = Ok image_4x4.
Proof. do 2 eexists. repeat split; vm_compute; reflexivity. Qed.

(** ** The contents of a repacked archive *)

(** ** Files *)

Lemma length_file_write f pos data :
  length (file_write f pos data) = Nat.max (length f) (pos + length data).
Proof.
  unfold file_write, zeros.
  rewrite !length_app, length_take, length_replicate, length_drop. lia.
Qed.

Lemma nth_file_write f pos data k :
  nth k (file_write f pos data) x00 =
  if decide (pos <= k < pos + length data)%nat then nth (k - pos) data x00 else nth k f x00.
Proof.
  unfold file_write, zeros.
  assert (Lp : length (take pos f ++ replicate (pos - length f) x00) = pos)
    by (rewrite length_app, length_take, length_replicate; lia).
  rewrite app_assoc.
  destruct (decide (pos <= k < pos + length data)%nat) as [Hin|Hout].
  - rewrite app_nth2 by lia. rewrite Lp. rewrite app_nth1 by lia. reflexivity.
  - destruct (Nat.lt_ge_cases k pos) as [Hlt|Hge].
    + rewrite app_nth1 by lia.
      destruct (Nat.lt_ge_cases k (length f)) as [Hk|Hk].
      * rewrite app_nth1 by (rewrite length_take; lia).
        rewrite <- (take_drop pos f) at 2. rewrite app_nth1 by (rewrite length_take; lia).
        reflexivity.
      * rewrite app_nth2 by (rewrite length_take; lia).
        rewrite (nth_overflow f) by lia.
        apply (nth_zeros (pos - length f)).
    + rewrite app_nth2 by lia. rewrite Lp. rewrite app_nth2 by lia.
      rewrite nth_drop. f_equal. lia.
Qed.

Lemma nth_slice {A} (a b k : nat) (l : list A) d :
  (k < b - a)%nat -> nth k (slice a b l) d = nth (a + k) l d.
Proof.
  intros Hk. unfold slice. rewrite <- nth_drop, nth_firstn.
  destruct (Nat.ltb_spec k (b - a)); [reflexivity|lia].
Qed.

Lemma list_eq_nth (l1 l2 : bytes) :
  length l1 = length l2 ->
  (forall k, (k < length l1)%nat -> nth k l1 x00 = nth k l2 x00) -> l1 = l2.
Proof.
  intros Hl Hn. apply (nth_ext _ _ x00 x00); assumption.
Qed.

(** What was written is read back, whatever was written after it at higher
    positions. *)
Lemma file_read_file_write f pos data :
  file_read (file_write f pos data) pos (length data) = data.
Proof.
  apply list_eq_nth.
  - unfold file_read. rewrite length_slice, length_file_write. lia.
  - intros k Hk. unfold file_read in *. rewrite length_slice, length_file_write in Hk.
    rewrite nth_slice by lia. rewrite nth_file_write.
    rewrite decide_True by lia. f_equal. lia.
Qed.

(** ** [struct.pack('<II', ...)] *)

Lemma u32_bytes v :
  0 <= v <= 4294967295 ->
  b2z (z2b v) + 256 * b2z (z2b (v / 256)) + 65536 * b2z (z2b (v / 65536)) +
  16777216 * b2z (z2b (v / 16777216)) = v.
Proof.
  intros Hv. rewrite !b2z_z2b.
  assert (D3 : v / 16777216 = v / 65536 / 256) by (rewrite Z.div_div by lia; reflexivity).
  assert (D2 : v / 65536 = v / 256 / 256) by (rewrite Z.div_div by lia; reflexivity).
  rewrite D3, D2.
  pose proof (Z.div_mod v 256). pose proof (Z.div_mod (v / 256) 256).
  pose proof (Z.div_mod (v / 256 / 256) 256).
  assert (v / 256 / 256 / 256 < 256).
  { rewrite !Z.div_div by lia. apply Z.div_lt_upper_bound; lia. }
  assert (0 <= v / 256 / 256 / 256) by (repeat apply Z.div_pos; lia).
  rewrite (Z.mod_small (v / 256 / 256 / 256)) by lia. lia.
Qed.

Lemma pack_II_Ok offset size data :
  pack_II offset size = Ok data ->
  length data = 8%nat /\ u32_record (offset, size) /\ entry_at data 0 = (offset, size).
Proof.
  unfold pack_II, pack_I. intros E.
  destruct ((0 <=? offset) && (offset <=? 4294967295)) eqn:Ho; [|discriminate].
  destruct ((0 <=? size) && (size <=? 4294967295)) eqn:Hs; [|discriminate].
  injection E as <-.
  apply andb_true_iff in Ho as [Ho1 Ho2]. apply andb_true_iff in Hs as [Hs1 Hs2].
  apply Z.leb_le in Ho1, Ho2, Hs1, Hs2.
  split; [reflexivity|]. split; [split; simpl; lia|].
  unfold entry_at, u32_at. cbn [nth app Nat.add].
  rewrite !u32_bytes by lia. reflexivity.
Qed.

Lemma entry_at_ext f g pos q :
  (forall k, (k < 8)%nat -> nth (pos + k) f x00 = nth (q + k) g x00) ->
  entry_at f pos = entry_at g q.
Proof.
  intros H. unfold entry_at, u32_at.
  rewrite <- (Nat.add_0_r pos) at 1. rewrite <- (Nat.add_0_r q) at 1.
  rewrite <- !Nat.add_assoc. rewrite !H by (simpl; lia). reflexivity.
Qed.

(** ** [write_asset_table] *)

Lemma write_entries_spec f pos entries f' :
  write_entries f pos entries = Ok f' ->
  Forall u32_record entries /\
  length f' = (if entries is [] then length f
               else Nat.max (length f) (pos + 8 * length entries)) /\
  (forall k, ~ (pos <= k < pos + 8 * length entries)%nat -> nth k f' x00 = nth k f x00) /\
  (forall i e, entries !! i = Some e -> entry_at f' (pos + 8 * i) = e).
Proof.
  revert f pos. induction entries as [|[o s] entries IH]; intros f pos E; cbn [write_entries] in E.
  - injection E as <-. repeat split; auto. intros i e L. discriminate.
  - apply bind_Ok in E as (data & P & E).
    apply pack_II_Ok in P as (Ld & Hu & Hd).
    destruct (IH _ _ E) as (Fu & Lf & Out & In). clear IH.
    rewrite length_file_write, Ld in Lf.
    split; [constructor; assumption|]. split; [|split].
    + cbn [length]. destruct entries; cbn [length] in *; lia.
    + intros k Hk. cbn [length] in Hk. rewrite Out by lia.
      rewrite nth_file_write. rewrite decide_False by lia. reflexivity.
    + intros [|i] e L.
      * injection L as <-. rewrite Nat.mul_0_r, Nat.add_0_r. rewrite <- Hd.
        apply entry_at_ext. intros k Hk. rewrite Out by lia.
        rewrite nth_file_write. rewrite decide_True by lia. f_equal. lia.
      * cbn [lookup list_lookup] in L. specialize (In i e L).
        replace (pos + 8 * S i)%nat with (pos + 8 + 8 * i)%nat by lia. assumption.
Qed.

(** X1. A table written by [write_asset_table] is read back by
    [read_asset_table]: when the write returns, reading as many records as
    were written from the same offset of the resulting file returns the
    written records, in order. *)
Theorem write_asset_table_read_back f table_offset entries f' :
  write_asset_table f table_offset entries = Ok f' ->
  read_asset_table f' table_offset (length entries) = Ok entries.
Proof.
  unfold write_asset_table, read_asset_table. intros E.
  destruct (write_entries_spec _ _ _ _ E) as (_ & Lf & _ & In).
  rewrite read_entries_spec. f_equal.
  assert (A : available_entries f' table_offset (length entries) = length entries).
  { unfold available_entries. apply Nat.min_l.
    destruct entries as [|e entries]; [cbn [length]; lia|].
    apply Nat.div_le_lower_bound; lia. }
  rewrite A. apply list_eq. intros i.
  rewrite list_lookup_fmap.
  destruct (entries !! i) as [e|] eqn:L.
  - rewrite lookup_seq_lt by (eapply lookup_lt_Some; eassumption).
    simpl. f_equal. apply In. assumption.
  - rewrite lookup_seq_ge by (apply lookup_ge_None; assumption). reflexivity.
Qed.

Lemma holds_spec f pos data :
  0 <= pos ->
  holds f pos data <->
  ((0 < length data)%nat -> (Z.to_nat pos + length data <= length f)%nat) /\
  forall k, (k < length data)%nat -> nth (Z.to_nat pos + k) f x00 = nth k data x00.
Proof.
  intros Hp. unfold holds, extract_asset, file_read, len. rewrite Nat2Z.id. split.
  - intros H. assert (L : length (slice (Z.to_nat pos) (Z.to_nat pos + length data) f)
                          = length data) by (rewrite H; reflexivity).
    rewrite length_slice in L. split; [lia|].
    intros k Hk.
    rewrite <- (nth_slice (Z.to_nat pos) (Z.to_nat pos + length data)) by lia.
    rewrite H. reflexivity.
  - intros [L N]. apply list_eq_nth.
    + rewrite length_slice. lia.
    + intros k Hk. rewrite length_slice in Hk. rewrite nth_slice by lia. apply N. lia.
Qed.

Lemma holds_frame f g pos data :
  0 <= pos -> holds f pos data -> (length f <= length g)%nat ->
  (forall k, pos <= Z.of_nat k < pos + len data -> nth k g x00 = nth k f x00) ->
  holds g pos data.
Proof.
  intros Hp H L N. apply holds_spec in H as [Lf Nf]; [|assumption].
  apply holds_spec; [assumption|]. split; [lia|].
  intros k Hk. rewrite N by (unfold len; lia). apply Nf. assumption.
Qed.

Lemma holds_file_write f pos data :
  0 <= pos -> holds (file_write f (Z.to_nat pos) data) pos data.
Proof.
  intros Hp. unfold holds, extract_asset, len. rewrite Nat2Z.id.
  apply file_read_file_write.
Qed.

Lemma length_file_read f pos size : (length (file_read f pos size) <= size)%nat.
Proof. unfold file_read. rewrite length_slice. lia. Qed.

Lemma payload_le orig_f modified i e :
  0 <= e.2 -> len (payload orig_f modified i e) <= payload_size modified i e.
Proof.
  intros He. unfold payload, payload_size. destruct (modified !! i); [lia|].
  unfold extract_asset, len. pose proof (length_file_read orig_f (Z.to_nat e.1) (Z.to_nat e.2)).
  lia.
Qed.

Lemma payload_size_nonneg modified i e : 0 <= e.2 -> 0 <= payload_size modified i e.
Proof. unfold payload_size, len. destruct (modified !! i); lia. Qed.

Lemma repack_step_payload orig_f modified :
  writes_payload (fun _ => true) orig_f modified (repack_step orig_f modified).
Proof.
  intros i st st' E. unfold repack_step, write_modified, copy_original in E.
  unfold payload, payload_size, extract_asset.
  destruct (modified !! i) as [data|].
  - destruct (rs_table st !! i) as [e|]; [|discriminate].
    exists e. split; [reflexivity|]. congruence.
  - destruct (rs_table st !! i) as [[o s]|]; [|discriminate].
    exists (o, s). split; [reflexivity|]. simpl. congruence.
Qed.

Lemma copy_original_payload orig_f :
  writes_payload (fun _ => true) orig_f ∅ (copy_original orig_f).
Proof.
  intros i st st' E. apply (repack_step_payload orig_f ∅).
  unfold repack_step. rewrite lookup_empty. assumption.
Qed.

Lemma shader_step_payload orig_f :
  writes_payload is_written orig_f ∅ (shader_step orig_f).
Proof.
  intros i st st' E. unfold shader_step in E.
  destruct (rs_table st !! i) as [[o s]|] eqn:L; [|discriminate].
  exists (o, s). split; [reflexivity|].
  change ((0 <? s) && (0 <? o)) with (is_written (o, s)) in E.
  destruct (is_written (o, s)).
  - destruct (copy_original_payload orig_f i st st' E) as (e & Le & ->).
    rewrite L in Le. injection Le as <-. reflexivity.
  - congruence.
Qed.

Lemma for_range_payload guard orig_f modified body i n st st' :
  writes_payload guard orig_f modified body ->
  sizes_nonneg (rs_table st) ->
  0 <= rs_current_offset st -> len (rs_new_f st) <= rs_current_offset st ->
  for_range body i n st = Ok st' ->
  sizes_nonneg (rs_table st') /\
  rs_current_offset st <= rs_current_offset st' /\
  len (rs_new_f st') <= rs_current_offset st' /\
  (length (rs_new_f st) <= length (rs_new_f st'))%nat /\
  (forall k, Z.of_nat k < rs_current_offset st ->
     nth k (rs_new_f st') x00 = nth k (rs_new_f st) x00) /\
  (forall k, (k < i)%nat -> rs_table st' !! k = rs_table st !! k) /\
  (forall k e, (i <= k < i + n)%nat -> rs_table st !! k = Some e -> guard e = true ->
     exists o, rs_table st' !! k = Some (o, payload_size modified k e) /\
       rs_current_offset st <= o /\
       o + payload_size modified k e <= rs_current_offset st' /\
       holds (rs_new_f st') o (payload orig_f modified k e)).
Proof.
  intros Hb. revert i st. induction n as [|n IH]; intros i st Hn Hc Hl E; cbn [for_range] in E.
  - injection E as <-. repeat split; auto; try lia.
  - apply bind_Ok in E as (st1 & E1 & E).
    destruct (Hb _ _ _ E1) as (e & Le & Hst1).
    pose proof (lookup_lt_Some _ _ _ Le) as Hi.
    assert (He : 0 <= e.2).
    { unfold sizes_nonneg in Hn. rewrite Forall_forall in Hn.
      apply Hn, list_elem_of_lookup. eauto. }
    pose proof (payload_le orig_f modified i e He) as Hpl.
    pose proof (payload_size_nonneg modified i e He) as Hps.
    destruct (guard e) eqn:G.
    + assert (Hn1 : sizes_nonneg (rs_table st1)).
      { rewrite Hst1. cbn [rs_table]. apply sizes_nonneg_insert; assumption. }
      assert (Hc1 : 0 <= rs_current_offset st1) by (rewrite Hst1; cbn [rs_current_offset]; lia).
      assert (Hl1 : len (rs_new_f st1) <= rs_current_offset st1).
      { rewrite Hst1. cbn [rs_new_f rs_current_offset]. unfold len in *.
        rewrite length_file_write. lia. }
      destruct (IH _ _ Hn1 Hc1 Hl1 E) as (Nn & Cc & Ll & Lm & Fr & Tb & St). clear IH.
      rewrite Hst1 in Cc, Lm, Fr, Tb, St.
      cbn [rs_new_f rs_table rs_current_offset] in Cc, Lm, Fr, Tb, St.
      rewrite length_file_write in Lm.
      repeat split; auto; try lia.
      * intros k Hk. rewrite Fr by lia. rewrite nth_file_write.
        rewrite decide_False by lia. reflexivity.
      * intros k Hk. rewrite Tb by lia. apply list_lookup_insert_ne. lia.
      * intros k e' Hk Lk Ge. destruct (decide (k = i)) as [->|Hne].
        -- rewrite Le in Lk. injection Lk as <-.
           exists (rs_current_offset st). split; [|split; [lia|split; [lia|]]].
           ++ rewrite Tb by lia. apply list_lookup_insert_eq. assumption.
           ++ eapply holds_frame; [assumption|apply (holds_file_write (rs_new_f st)); assumption| |].
              ** rewrite length_file_write. lia.
              ** intros k Hk'. apply Fr. lia.
        -- destruct (St k e') as (o & Lo & Ho & Ho' & Hh); [lia| |assumption|].
           { rewrite list_lookup_insert_ne by congruence. assumption. }
           exists o. split; [assumption|]. split; [lia|]. split; assumption.
    + subst st1. destruct (IH _ _ Hn Hc Hl E) as (Nn & Cc & Ll & Lm & Fr & Tb & St). clear IH.
      repeat split; auto.
      intros k e' Hk Lk Ge. destruct (decide (k = i)) as [->|Hne]; [congruence|].
      apply St; [lia|assumption|assumption].
Qed.

Lemma images_below_sounds_eq : images_below_sounds = Z.to_nat 10256.
Proof. vm_compute. reflexivity. Qed.

Lemma read_entries_of_entries f pos (table : list (Z * Z)) :
  (pos + 8 * length table <= length f)%nat ->
  (forall i e, table !! i = Some e -> entry_at f (pos + 8 * i) = e) ->
  read_entries f pos (length table) = Ok table.
Proof.
  intros Lf In. rewrite read_entries_spec. f_equal.
  assert (A : available_entries f pos (length table) = length table).
  { unfold available_entries. apply Nat.min_l. apply Nat.div_le_lower_bound; lia. }
  rewrite A. apply list_eq. intros i. rewrite list_lookup_fmap.
  destruct (table !! i) as [e|] eqn:L.
  - rewrite lookup_seq_lt by (eapply lookup_lt_Some; eassumption).
    simpl. f_equal. apply In. assumption.
  - rewrite lookup_seq_ge by (apply lookup_ge_None; assumption). reflexivity.
Qed.

Lemma write_entries_length f pos entries f' :
  write_entries f pos entries = Ok f' -> (length f <= length f')%nat.
Proof.
  intros E. destruct (write_entries_spec _ _ _ _ E) as (_ & L & _).
  destruct entries; lia.
Qed.

(** The state of [repack_assets] after its four loops and its four table
    writes. *)
Lemma repack_assets_inv orig_f modified_images modified_sounds res :
  repack_assets orig_f modified_images modified_sounds = Ok res ->
  exists T1 T2 T3 T4 f0 f1 f2 f3,
    read_asset_table orig_f TABLE_OFFSETS_images IMAGE_COUNT = Ok T1 /\
    read_asset_table orig_f TABLE_OFFSETS_sounds SOUND_COUNT = Ok T2 /\
    read_asset_table orig_f TABLE_OFFSETS_fonts FONT_COUNT = Ok T3 /\
    read_asset_table orig_f TABLE_OFFSETS_shaders SHADER_COUNT = Ok T4 /\
    write_entries f0 TABLE_OFFSETS_images (rr_image_table res) = Ok f1 /\
    write_entries f1 TABLE_OFFSETS_sounds (rr_sound_table res) = Ok f2 /\
    write_entries f2 TABLE_OFFSETS_fonts (rr_font_table res) = Ok f3 /\
    write_entries f3 TABLE_OFFSETS_shaders (rr_shader_table res) = Ok (rr_new_f res) /\
    (Z.to_nat metadata_size <= length f0)%nat /\
    stored f0 (fun _ => true) orig_f modified_images T1 (rr_image_table res) /\
    stored f0 (fun _ => true) orig_f modified_sounds T2 (rr_sound_table res) /\
    stored f0 (fun _ => true) orig_f ∅ T3 (rr_font_table res) /\
    stored f0 is_written orig_f ∅ T4 (rr_shader_table res).
Proof.
  intros E. pose proof (repack_assets_spec _ _ _ _ E) as (_ & _ & N1 & N2 & N3 & N4 & _).
  unfold repack_assets in E.
  apply bind_Ok in E as (T1 & R1 & E). apply bind_Ok in E as (T2 & R2 & E).
  apply bind_Ok in E as (T3 & R3 & E). apply bind_Ok in E as (T4 & R4 & E).
  apply bind_Ok in E as (st1 & L1 & E). apply bind_Ok in E as (st2 & L2 & E).
  apply bind_Ok in E as (st3 & L3 & E). apply bind_Ok in E as (st4 & L4 & E).
  apply bind_Ok in E as (f1 & W1 & E). apply bind_Ok in E as (f2 & W2 & E).
  apply bind_Ok in E as (f3 & W3 & E). apply bind_Ok in E as (f4 & W4 & E).
  injection E as <-.
  cbn [rr_image_table rr_sound_table rr_font_table rr_shader_table rr_new_f] in *.
  unfold write_asset_table in *.
  exists T1, T2, T3, T4, (rs_new_f st4), f1, f2, f3.
  do 8 (split; [assumption|]).
  pose proof metadata_size_pos as Hpos.
  pose proof (read_asset_table_Ok _ _ _ _ R1) as (_ & S1 & _).
  pose proof (read_asset_table_Ok _ _ _ _ R2) as (_ & S2 & _).
  pose proof (read_asset_table_Ok _ _ _ _ R3) as (_ & S3 & _).
  pose proof (read_asset_table_Ok _ _ _ _ R4) as (_ & S4 & _).
  assert (L0 : length (file_write [] 0 (zeros (Z.to_nat metadata_size)))
               = Z.to_nat metadata_size).
  { rewrite length_file_write. unfold zeros. rewrite length_replicate. cbn [length]. lia. }
  apply (for_range_payload _ _ _ _ _ _ _ _ (repack_step_payload _ _)) in L1
    as (_ & C1 & B1 & M1 & F1 & _ & P1);
    [|assumption|cbn [rs_current_offset]; lia
     |cbn [rs_current_offset rs_new_f]; unfold len; rewrite L0; lia].
  cbn [rs_current_offset rs_new_f rs_table] in *.
  apply (for_range_payload _ _ _ _ _ _ _ _ (repack_step_payload _ _)) in L2
    as (_ & C2 & B2 & M2 & F2 & _ & P2);
    [|assumption|cbn [rs_current_offset]; lia|cbn [rs_current_offset rs_new_f]; lia].
  cbn [rs_current_offset rs_new_f rs_table] in *.
  apply (for_range_payload _ _ _ _ _ _ _ _ (copy_original_payload _)) in L3
    as (_ & C3 & B3 & M3 & F3 & _ & P3);
    [|assumption|cbn [rs_current_offset]; lia|cbn [rs_current_offset rs_new_f]; lia].
  cbn [rs_current_offset rs_new_f rs_table] in *.
  apply (for_range_payload _ _ _ _ _ _ _ _ (shader_step_payload _)) in L4
    as (_ & C4 & B4 & M4 & F4 & _ & P4);
    [|assumption|cbn [rs_current_offset]; lia|cbn [rs_current_offset rs_new_f]; lia].
  cbn [rs_current_offset rs_new_f rs_table] in *.
  rewrite L0 in M1.
  split; [lia|].
  assert (K1 : forall k e, T1 !! k = Some e -> (0 <= k < 0 + IMAGE_COUNT)%nat).
  { intros k e Lk. apply lookup_lt_Some in Lk.
    pose proof (read_asset_table_Ok _ _ _ _ R1) as (? & _). lia. }
  assert (K2 : forall k e, T2 !! k = Some e -> (0 <= k < 0 + SOUND_COUNT)%nat).
  { intros k e Lk. apply lookup_lt_Some in Lk.
    pose proof (read_asset_table_Ok _ _ _ _ R2) as (? & _). lia. }
  assert (K3 : forall k e, T3 !! k = Some e -> (0 <= k < 0 + FONT_COUNT)%nat).
  { intros k e Lk. apply lookup_lt_Some in Lk.
    pose proof (read_asset_table_Ok _ _ _ _ R3) as (? & _). lia. }
  assert (K4 : forall k e, T4 !! k = Some e -> (0 <= k < 0 + SHADER_COUNT)%nat).
  { intros k e Lk. apply lookup_lt_Some in Lk.
    pose proof (read_asset_table_Ok _ _ _ _ R4) as (? & _). lia. }
  split; [|split; [|split]]; intros k e Lk Ge.
  - destruct (P1 k e (K1 _ _ Lk) Lk Ge) as (o & Lo & Ho & Ho' & Hh).
    pose proof (payload_le orig_f modified_images k e) as Hpl.
    exists o. split; [assumption|]. split; [lia|].
    assert (He : 0 <= e.2).
    { unfold sizes_nonneg in S1. rewrite Forall_forall in S1.
      apply S1, list_elem_of_lookup. eauto. }
    specialize (Hpl He).
    eapply holds_frame; [lia|exact Hh|lia|].
    intros j Hj. rewrite F4, F3, F2 by lia. reflexivity.
  - destruct (P2 k e (K2 _ _ Lk) Lk Ge) as (o & Lo & Ho & Ho' & Hh).
    pose proof (payload_le orig_f modified_sounds k e) as Hpl.
    exists o. split; [assumption|]. split; [lia|].
    assert (He : 0 <= e.2).
    { unfold sizes_nonneg in S2. rewrite Forall_forall in S2.
      apply S2, list_elem_of_lookup. eauto. }
    specialize (Hpl He).
    eapply holds_frame; [lia|exact Hh|lia|].
    intros j Hj. rewrite F4, F3 by lia. reflexivity.
  - destruct (P3 k e (K3 _ _ Lk) Lk Ge) as (o & Lo & Ho & Ho' & Hh).
    pose proof (payload_le orig_f ∅ k e) as Hpl.
    exists o. split; [assumption|]. split; [lia|].
    assert (He : 0 <= e.2).
    { unfold sizes_nonneg in S3. rewrite Forall_forall in S3.
      apply S3, list_elem_of_lookup. eauto. }
    specialize (Hpl He).
    eapply holds_frame; [lia|exact Hh|lia|].
    intros j Hj. rewrite F4 by lia. reflexivity.
  - destruct (P4 k e (K4 _ _ Lk) Lk Ge) as (o & Lo & Ho & Ho' & Hh).
    exists o. split; [assumption|]. split; [lia|assumption].
Qed.

Lemma table_bounds :
  (TABLE_OFFSETS_images + 8 * IMAGE_COUNT <= Z.to_nat metadata_size)%nat /\
  (TABLE_OFFSETS_sounds + 8 * SOUND_COUNT = TABLE_OFFSETS_fonts)%nat /\
  (TABLE_OFFSETS_fonts + 8 * FONT_COUNT = TABLE_OFFSETS_shaders)%nat /\
  (TABLE_OFFSETS_shaders + 8 * SHADER_COUNT <= Z.to_nat metadata_size)%nat /\
  (TABLE_OFFSETS_images + 8 * images_below_sounds = TABLE_OFFSETS_sounds)%nat /\
  (images_below_sounds + 4 = IMAGE_COUNT)%nat.
Proof.
  rewrite images_below_sounds_eq.
  unfold metadata_size, TABLE_OFFSETS_images, TABLE_OFFSETS_sounds, TABLE_OFFSETS_fonts,
    TABLE_OFFSETS_shaders, IMAGE_COUNT, SOUND_COUNT, FONT_COUNT, SHADER_COUNT.
  lia.
Qed.

(** In the archive [repack_assets] writes, every record of the tables it
    returns points at its payload. *)
Lemma repack_assets_stored orig_f modified_images modified_sounds res :
  repack_assets orig_f modified_images modified_sounds = Ok res ->
  exists image_table sound_table font_table shader_table,
    read_asset_table orig_f TABLE_OFFSETS_images IMAGE_COUNT = Ok image_table /\
    read_asset_table orig_f TABLE_OFFSETS_sounds SOUND_COUNT = Ok sound_table /\
    read_asset_table orig_f TABLE_OFFSETS_fonts FONT_COUNT = Ok font_table /\
    read_asset_table orig_f TABLE_OFFSETS_shaders SHADER_COUNT = Ok shader_table /\
    stored (rr_new_f res) (fun _ => true) orig_f modified_images
      image_table (rr_image_table res) /\
    stored (rr_new_f res) (fun _ => true) orig_f modified_sounds
      sound_table (rr_sound_table res) /\
    stored (rr_new_f res) (fun _ => true) orig_f ∅ font_table (rr_font_table res) /\
    stored (rr_new_f res) is_written orig_f ∅ shader_table (rr_shader_table res).
Proof.
  intros E.
  pose proof (repack_assets_spec _ _ _ _ E) as (_ & _ & N1 & N2 & N3 & N4 & _).
  destruct (repack_assets_inv _ _ _ _ E)
    as (T1 & T2 & T3 & T4 & f0 & f1 & f2 & f3 & R1 & R2 & R3 & R4 &
        W1 & W2 & W3 & W4 & L0 & P1 & P2 & P3 & P4).
  exists T1, T2, T3, T4. do 4 (split; [assumption|]).
  destruct (write_entries_spec _ _ _ _ W1) as (_ & _ & O1 & _).
  destruct (write_entries_spec _ _ _ _ W2) as (_ & _ & O2 & _).
  destruct (write_entries_spec _ _ _ _ W3) as (_ & _ & O3 & _).
  destruct (write_entries_spec _ _ _ _ W4) as (_ & _ & O4 & _).
  pose proof (write_entries_length _ _ _ _ W1). pose proof (write_entries_length _ _ _ _ W2).
  pose proof (write_entries_length _ _ _ _ W3). pose proof (write_entries_length _ _ _ _ W4).
  rewrite N1 in O1. rewrite N2 in O2. rewrite N3 in O3. rewrite N4 in O4.
  pose proof table_bounds as (B1 & B2 & B3 & B4 & _).
  pose proof metadata_size_pos as Hpos.
  assert (Fr : forall k, (Z.to_nat metadata_size <= k)%nat ->
                 nth k (rr_new_f res) x00 = nth k f0 x00).
  { intros k Hk. rewrite O4, O3, O2, O1 by lia. reflexivity. }
  assert (St : forall guard modified T T',
             stored f0 guard orig_f modified T T' ->
             stored (rr_new_f res) guard orig_f modified T T').
  { intros guard modified T T' P k e Lk Ge.
    destruct (P k e Lk Ge) as (o & Lo & Ho & Hh).
    exists o. split; [assumption|]. split; [assumption|].
    eapply holds_frame; [lia|exact Hh|lia|].
    intros j Hj. apply Fr. lia. }
  auto.
Qed.

(** The tables read back from the archive [repack_assets] writes. *)
Lemma repack_assets_read_back orig_f modified_images modified_sounds res :
  repack_assets orig_f modified_images modified_sounds = Ok res ->
  read_asset_table (rr_new_f res) TABLE_OFFSETS_sounds SOUND_COUNT = Ok (rr_sound_table res) /\
  read_asset_table (rr_new_f res) TABLE_OFFSETS_fonts FONT_COUNT = Ok (rr_font_table res) /\
  read_asset_table (rr_new_f res) TABLE_OFFSETS_shaders SHADER_COUNT
    = Ok (rr_shader_table res) /\
  read_asset_table (rr_new_f res) TABLE_OFFSETS_images IMAGE_COUNT
    = Ok (take images_below_sounds (rr_image_table res) ++ take 4 (rr_sound_table res)).
Proof.
  intros E.
  pose proof (repack_assets_spec _ _ _ _ E) as (_ & _ & N1 & N2 & N3 & N4 & _).
  destruct (repack_assets_inv _ _ _ _ E)
    as (T1 & T2 & T3 & T4 & f0 & f1 & f2 & f3 & _ & _ & _ & _ &
        W1 & W2 & W3 & W4 & L0 & _).
  destruct (write_entries_spec _ _ _ _ W1) as (_ & _ & O1 & I1).
  destruct (write_entries_spec _ _ _ _ W2) as (_ & _ & O2 & I2).
  destruct (write_entries_spec _ _ _ _ W3) as (_ & _ & O3 & I3).
  destruct (write_entries_spec _ _ _ _ W4) as (_ & _ & O4 & I4).
  pose proof (write_entries_length _ _ _ _ W1). pose proof (write_entries_length _ _ _ _ W2).
  pose proof (write_entries_length _ _ _ _ W3). pose proof (write_entries_length _ _ _ _ W4).
  rewrite N1 in O1. rewrite N2 in O2. rewrite N3 in O3. rewrite N4 in O4.
  pose proof table_bounds as (B1 & B2 & B3 & B4 & B5 & B6).
  unfold read_asset_table.
  split; [|split; [|split]].
  - rewrite <- N2 at 1. apply read_entries_of_entries; [lia|].
    intros i e L. pose proof (lookup_lt_Some _ _ _ L).
    rewrite <- (I2 i e L). apply entry_at_ext. intros k Hk.
    rewrite O4, O3 by lia. reflexivity.
  - rewrite <- N3 at 1. apply read_entries_of_entries; [lia|].
    intros i e L. pose proof (lookup_lt_Some _ _ _ L).
    rewrite <- (I3 i e L). apply entry_at_ext. intros k Hk.
    rewrite O4 by lia. reflexivity.
  - rewrite <- N4 at 1. apply read_entries_of_entries; [lia|].
    intros i e L. apply I4. assumption.
  - set (table := take images_below_sounds (rr_image_table res) ++ take 4 (rr_sound_table res)).
    assert (Lt : length (take images_below_sounds (rr_image_table res)) = images_below_sounds)
      by (rewrite length_take; lia).
    assert (Ll : length table = IMAGE_COUNT).
    { unfold table. rewrite length_app, Lt, length_take.
      unfold SOUND_COUNT in N2. lia. }
    rewrite <- Ll. apply read_entries_of_entries; [lia|].
    intros i e L. unfold table in L.
    destruct (Nat.lt_ge_cases i images_below_sounds) as [Hi|Hi].
    + rewrite lookup_app_l in L by lia. rewrite lookup_take_lt in L by assumption.
      rewrite <- (I1 i e L). apply entry_at_ext. intros k Hk.
      rewrite O4, O3, O2 by lia. reflexivity.
    + rewrite lookup_app_r in L by lia. rewrite Lt in L.
      pose proof (lookup_lt_Some _ _ _ L) as Hl. rewrite length_take in Hl.
      rewrite lookup_take_lt in L by lia.
      rewrite <- (I2 _ e L).
      replace (TABLE_OFFSETS_images + 8 * i)%nat
        with (TABLE_OFFSETS_sounds + 8 * (i - images_below_sounds))%nat by lia.
      apply entry_at_ext. intros k Hk.
      rewrite O4, O3 by lia. reflexivity.
Qed.

Lemma payload_intact orig_f modified i e :
  u32_record e -> intact orig_f modified i e ->
  len (payload orig_f modified i e) = payload_size modified i e.
Proof.
  intros [[H1 _] [H2 _]] Hi. unfold payload, payload_size.
  destruct (modified !! i) as [data|] eqn:M; [reflexivity|].
  destruct Hi as [[d Hd]|Hi]; [congruence|].
  unfold extract_asset, file_read, len in *. rewrite length_slice. lia.
Qed.

Lemma stored_extracts new_f guard orig_f modified orig_table new_table n :
  Forall u32_record orig_table ->
  stored new_f guard orig_f modified orig_table new_table ->
  extracts new_f guard orig_f modified orig_table new_table n.
Proof.
  intros Hu St i e _ L G Hi.
  destruct (St i e L G) as (o & Lo & _ & Hh).
  exists o, (payload_size modified i e). split; [assumption|]. split; [reflexivity|].
  rewrite Forall_forall in Hu.
  rewrite <- (payload_intact orig_f modified i e); [exact Hh| |assumption].
  apply Hu, list_elem_of_lookup. eauto.
Qed.

Lemma read_asset_table_u32 f table_offset count table :
  read_asset_table f table_offset count = Ok table -> Forall u32_record table.
Proof. intros R. apply read_asset_table_Ok in R as (_ & _ & R). exact R. Qed.


(** Repacking, then reading the tables back and extracting the records:
    for every record of the original tables (an image record below the
    sound table, any sound or font record, a shader record that passes the
    guard of the shader loop) that was replaced by a modified file or lay
    inside the original archive, the record of the same index read from the
    repacked archive has the size of the payload, and [extract_asset]
    returns the payload from it. *)
Lemma repack_assets_extracts orig_f modified_images modified_sounds res :
  repack_assets orig_f modified_images modified_sounds = Ok res ->
  exists image_table sound_table font_table shader_table images sounds fonts shaders,
    (read_asset_table orig_f TABLE_OFFSETS_images IMAGE_COUNT = Ok image_table /\
     read_asset_table orig_f TABLE_OFFSETS_sounds SOUND_COUNT = Ok sound_table /\
     read_asset_table orig_f TABLE_OFFSETS_fonts FONT_COUNT = Ok font_table /\
     read_asset_table orig_f TABLE_OFFSETS_shaders SHADER_COUNT = Ok shader_table) /\
    (read_asset_table (rr_new_f res) TABLE_OFFSETS_images IMAGE_COUNT = Ok images /\
     read_asset_table (rr_new_f res) TABLE_OFFSETS_sounds SOUND_COUNT = Ok sounds /\
     read_asset_table (rr_new_f res) TABLE_OFFSETS_fonts FONT_COUNT = Ok fonts /\
     read_asset_table (rr_new_f res) TABLE_OFFSETS_shaders SHADER_COUNT = Ok shaders) /\
    extracts (rr_new_f res) (fun _ => true) orig_f modified_images
      image_table images images_below_sounds /\
    extracts (rr_new_f res) (fun _ => true) orig_f modified_sounds
      sound_table sounds SOUND_COUNT /\
    extracts (rr_new_f res) (fun _ => true) orig_f ∅ font_table fonts FONT_COUNT /\
    extracts (rr_new_f res) is_written orig_f ∅ shader_table shaders SHADER_COUNT.
Proof.
  intros E.
  destruct (repack_assets_stored _ _ _ _ E)
    as (T1 & T2 & T3 & T4 & R1 & R2 & R3 & R4 & P1 & P2 & P3 & P4).
  destruct (repack_assets_read_back _ _ _ _ E) as (B2 & B3 & B4 & B1).
  exists T1, T2, T3, T4.
  exists (take images_below_sounds (rr_image_table res) ++ take 4 (rr_sound_table res)),
    (rr_sound_table res), (rr_font_table res), (rr_shader_table res).
  split; [auto|]. split; [auto|].
  pose proof (read_asset_table_u32 _ _ _ _ R1). pose proof (read_asset_table_u32 _ _ _ _ R2).
  pose proof (read_asset_table_u32 _ _ _ _ R3). pose proof (read_asset_table_u32 _ _ _ _ R4).
  split; [|split; [|split]]; try (apply stored_extracts; assumption).
  unfold extracts. intros i e Hi L G Hin.
  destruct (stored_extracts _ _ _ _ _ _ images_below_sounds H P1 i e Hi L G Hin)
    as (o & s & Lo & Hs & Hx).
  exists o, s. split; [|auto].
  rewrite lookup_app_l.
  - rewrite lookup_take_lt by assumption. assumption.
  - rewrite length_take. apply lookup_lt_Some in Lo. lia.
Qed.

Lemma write_asset_table_read_back_witness :
  exists f',
    write_asset_table (zeros 4) 2 [(100, 50); (4294967295, 0)] = Ok f' /\
    read_asset_table f' 2 2 = Ok [(100, 50); (4294967295, 0)].
Proof.
  eexists. split; [vm_compute; reflexivity|].
  apply (write_asset_table_read_back (zeros 4) 2 [(100, 50); (4294967295, 0)]).
  vm_compute. reflexivity.
Defined.

Lemma empty_archive_table table_offset count table k :
  read_asset_table empty_archive table_offset count = Ok table ->
  (k < length table)%nat -> table !! k = Some (0, 0).
Proof.
  intros R Hk. rewrite (read_asset_table_lookup _ _ _ _ k R Hk).
  unfold empty_archive. rewrite entry_at_zeros. reflexivity.
Qed.

Lemma one_image_repacks :
  exists res, repack_assets empty_archive {[ 1%nat := bytes_of [1; 2; 3; 4] ]} ∅ = Ok res.
Proof.
  destruct (empty_archive_repacks {[ 1%nat := bytes_of [1; 2; 3; 4] ]} 4) as (res & E & _).
  - lia.
  - intros i data [<- <-]%lookup_singleton_Some. vm_compute. discriminate.
  - unfold metadata_size, IMAGE_COUNT, SOUND_COUNT, FONT_COUNT, SHADER_COUNT. lia.
  - exists res. exact E.
Qed.


(** X8. [repack_assets] returns: when the original archive holds the four
    tables in full and no asset, original or modified, is larger than a
    bound [B] under which the repacked archive stays addressable by 32-bit
    offsets, no step of the repack raises. *)
Theorem repack_assets_returns B orig_f modified_images modified_sounds :
  0 <= B ->
  (TABLE_OFFSETS_shaders + 8 * SHADER_COUNT <= length orig_f)%nat ->
  table_sizes_within B orig_f TABLE_OFFSETS_images IMAGE_COUNT ->
  table_sizes_within B orig_f TABLE_OFFSETS_sounds SOUND_COUNT ->
  table_sizes_within B orig_f TABLE_OFFSETS_fonts FONT_COUNT ->
  table_sizes_within B orig_f TABLE_OFFSETS_shaders SHADER_COUNT ->
  files_within B modified_images -> files_within B modified_sounds ->
  metadata_size +
    Z.of_nat (IMAGE_COUNT + SOUND_COUNT + FONT_COUNT + SHADER_COUNT) * B <= 4294967295 ->
  exists res, repack_assets orig_f modified_images modified_sounds = Ok res.
Proof. apply repack_assets_succeeds. Qed.

Lemma repack_assets_returns_witness :
  exists res, repack_assets empty_archive {[ 1%nat := bytes_of [1; 2; 3; 4] ]} ∅ = Ok res.
Proof.
  assert (Ht : forall o c, table_sizes_within 4 empty_archive o c).
  { intros o c T R. eapply Forall_impl; [apply (empty_archive_tables o c T R)|].
    intros e He. simpl in He. lia. }
  apply (repack_assets_returns 4).
  - lia.
  - unfold empty_archive, zeros. rewrite length_replicate.
    unfold TABLE_OFFSETS_shaders, SHADER_COUNT. lia.
  - apply Ht.
  - apply Ht.
  - apply Ht.
  - apply Ht.
  - intros i data [<- <-]%lookup_singleton_Some. vm_compute. discriminate.
  - intros i data. rewrite lookup_empty. discriminate.
  - unfold metadata_size, IMAGE_COUNT, SOUND_COUNT, FONT_COUNT, SHADER_COUNT. lia.
Defined.


(** ** The extractor on a repacked archive *)

Lemma file_read_take f pos n : file_read f pos n = take n (drop pos f).
Proof. unfold file_read, slice. f_equal. lia. Qed.

Lemma header_of_asset f offset size :
  file_read f (Z.to_nat offset) (Z.to_nat (Z.min 16 size)) = take 16 (extract_asset f offset size).
Proof.
  unfold extract_asset. rewrite !file_read_take, take_take. f_equal. lia.
Qed.

Lemma detect_image_format_header data :
  detect_image_format (take 16 data) = detect_image_format data.
Proof.
  unfold detect_image_format. rewrite !take_take. reflexivity.
Qed.

Lemma font_extension_header data : font_extension (take 16 data) = font_extension data.
Proof. unfold font_extension. rewrite !take_take. reflexivity. Qed.

Lemma sound_header_of_asset f offset size :
  4 <= len (extract_asset f offset size) ->
  file_read f (Z.to_nat offset) 4 = take 4 (extract_asset f offset size).
Proof.
  unfold extract_asset, len. rewrite !file_read_take, length_take, take_take.
  intros Hl. f_equal. lia.
Qed.

Lemma py_prefix_lookup {A} (limit : Z) (l : list A) i :
  (i < Z.to_nat limit)%nat -> py_prefix limit l !! i = l !! i.
Proof.
  intros Hi. unfold py_prefix. destruct (Z.ltb_spec limit 0); [lia|].
  apply lookup_take_lt. assumption.
Qed.

Lemma extracts_extracted ext_of min_len guard new_f orig_f modified orig_table new_table
    (g : Z * Z -> extension * bytes) outs n :
  extracts new_f guard orig_f modified orig_table new_table n ->
  (forall i, (i < n)%nat -> outs !! i = g <$> new_table !! i) ->
  (forall o s, min_len <= len (extract_asset new_f o s) ->
     g (o, s) = (ext_of (extract_asset new_f o s), extract_asset new_f o s)) ->
  extracted_as ext_of min_len guard orig_f modified orig_table outs n.
Proof.
  intros Hx Ho Hg i e Hi L G Hin Hl.
  destruct (Hx i e Hi L G Hin) as (o & s & Lo & _ & Hd).
  rewrite (Ho i Hi), Lo. simpl. rewrite Hg by (rewrite Hd; assumption).
  rewrite Hd. reflexivity.
Qed.

Lemma extracts_mono new_f guard orig_f modified orig_table new_table n m :
  (m <= n)%nat -> extracts new_f guard orig_f modified orig_table new_table n ->
  extracts new_f guard orig_f modified orig_table new_table m.
Proof. intros Hm Hx i e Hi. apply Hx. lia. Qed.

(** X3. Repacking, then extracting.  From the archive [repack_assets]
    writes, [extract_images], [extract_sounds], [extract_fonts] and
    [extract_shaders] return, at the index of every record that was
    replaced by a modified file or lay inside the original archive, the
    payload of that record (the modified file, or the bytes the original
    record pointed at) under the extension its own first bytes select: for
    the images below the sound table and below [limit], for the sounds
    below [limit] that have at least four bytes, for every font, and for the
    shaders that pass the guard of the shader loop. *)
Theorem repack_then_extract orig_f modified_images modified_sounds res limit :
  repack_assets orig_f modified_images modified_sounds = Ok res ->
  exists image_table sound_table font_table shader_table images sounds fonts shaders,
    (read_asset_table orig_f TABLE_OFFSETS_images IMAGE_COUNT = Ok image_table /\
     read_asset_table orig_f TABLE_OFFSETS_sounds SOUND_COUNT = Ok sound_table /\
     read_asset_table orig_f TABLE_OFFSETS_fonts FONT_COUNT = Ok font_table /\
     read_asset_table orig_f TABLE_OFFSETS_shaders SHADER_COUNT = Ok shader_table) /\
    (extract_images (rr_new_f res) limit = Ok images /\
     extract_sounds (rr_new_f res) limit = Ok sounds /\
     extract_fonts (rr_new_f res) = Ok fonts /\
     extract_shaders (rr_new_f res) = Ok shaders) /\
    extracted_as detect_image_format 0 (fun _ => true) orig_f modified_images
      image_table images (Nat.min images_below_sounds (Z.to_nat limit)) /\
    extracted_as (fun data => sound_extension (take 4 data)) 4 (fun _ => true) orig_f
      modified_sounds sound_table sounds (Z.to_nat limit) /\
    extracted_as font_extension 0 (fun _ => true) orig_f ∅ font_table fonts FONT_COUNT /\
    extracted_as (fun _ => ext_glsl) 0 is_written orig_f ∅ shader_table shaders SHADER_COUNT.
Proof.
  intros E.
  destruct (repack_assets_extracts _ _ _ _ E)
    as (T1 & T2 & T3 & T4 & I & S & F & Sh & R & (R1 & R2 & R3 & R4) & X1 & X2 & X3 & X4).
  exists T1, T2, T3, T4. unfold extract_images, extract_sounds, extract_fonts, extract_shaders.
  rewrite R1, R2, R3, R4. cbn [mbind result_bind].
  do 4 eexists. split; [exact R|]. split; [repeat split; reflexivity|].
  split; [|split; [|split]].
  - eapply extracts_extracted.
    + eapply extracts_mono; [|exact X1]. lia.
    + intros i Hi. rewrite list_lookup_fmap, py_prefix_lookup by lia. reflexivity.
    + intros o s _. cbv beta iota zeta.
      rewrite header_of_asset, detect_image_format_header. reflexivity.
  - eapply extracts_extracted.
    + intros i e Hi L. apply X2; [|exact L]. apply lookup_lt_Some in L.
      pose proof (read_asset_table_Ok _ _ _ _ (proj1 (proj2 R))) as (? & _). lia.
    + intros i Hi. rewrite list_lookup_fmap, py_prefix_lookup by lia. reflexivity.
    + intros o s Hl. cbv beta iota zeta.
      rewrite (sound_header_of_asset _ o s) by assumption. reflexivity.
  - eapply extracts_extracted.
    + exact X3.
    + intros i Hi. rewrite list_lookup_fmap. reflexivity.
    + intros o s _. cbv beta iota zeta.
      rewrite header_of_asset, font_extension_header. reflexivity.
  - eapply extracts_extracted.
    + exact X4.
    + intros i Hi. rewrite list_lookup_fmap. reflexivity.
    + intros o s _. reflexivity.
Qed.

(** ** The names of encoded images *)

Lemma take_write {A} (n off : nat) (buf v rest : list A) :
  (n <= off)%nat -> (off <= length buf)%nat ->
  take n (take off buf ++ v ++ rest) = take n buf.
Proof.
  intros Hn Hl. rewrite take_app_le by (rewrite length_take; lia).
  rewrite take_take. f_equal. lia.
Qed.

Lemma pack_into_H_front buf off v buf' :
  (4 <= off)%nat -> pack_into_H buf off v = Ok buf' -> take 4 buf' = take 4 buf.
Proof.
  intros Ho E. apply pack_into_H_Ok in E as (_ & Hl & ->). apply take_write; lia.
Qed.

Lemma pack_into_f_front buf off x buf' :
  (4 <= off)%nat -> pack_into_f buf off x = Ok buf' -> take 4 buf' = take 4 buf.
Proof.
  intros Ho E. apply pack_into_f_Ok in E as (a & b & c & d & _ & Hl & ->).
  apply take_write; lia.
Qed.

Lemma pack_into_H_length buf off v buf' :
  pack_into_H buf off v = Ok buf' -> length buf' = length buf /\ (off + 2 <= length buf)%nat.
Proof.
  intros E. apply pack_into_H_Ok in E as (_ & Hl & ->).
  rewrite !length_app, length_take, length_drop. simpl. lia.
Qed.

Lemma pack_dims_front buf0 buf1 buf2 w h :
  pack_into_H buf0 0 w = Ok buf1 ->
  (take 2 buf2 = take 2 buf1) ->
  forall buf3, pack_into_H buf2 2 h = Ok buf3 -> starts_with_dims w h buf3.
Proof.
  intros E0 T buf3 E2.
  apply pack_into_H_Ok in E0 as (Hw & _ & ->).
  apply pack_into_H_Ok in E2 as (Hh & Hl & ->).
  split; [|auto]. rewrite T. reflexivity.
Qed.

Lemma starts_with_dims_front w h hd hd' :
  take 4 hd' = take 4 hd -> starts_with_dims w h hd -> starts_with_dims w h hd'.
Proof. intros T (F & R). split; [congruence|assumption]. Qed.

Lemma take2_of_take4 (a b : bytes) : take 4 a = take 4 b -> take 2 a = take 2 b.
Proof.
  intros T. apply (f_equal (take 2)) in T. rewrite !take_take in T. exact T.
Qed.

Ltac front E :=
  first [ apply pack_into_H_front in E; [|lia]
        | apply pack_into_f_front in E; [|lia] ].

Lemma write_dimensions_front header w h hd :
  write_dimensions header w h = Ok hd -> starts_with_dims w h hd /\ length hd = length header.
Proof.
  unfold write_dimensions. intros E.
  apply bind_Ok in E as (h1 & E1 & E). apply bind_Ok in E as (h2 & E2 & E).
  apply bind_Ok in E as (h3 & E3 & E). apply bind_Ok in E as (h4 & E4 & E).
  apply bind_Ok in E as (h5 & E5 & E).
  pose proof (pack_into_H_length _ _ _ _ E1) as (L1 & _).
  pose proof (pack_into_H_length _ _ _ _ E2) as (L2 & _).
  pose proof (pack_into_H_length _ _ _ _ E3) as (L3 & _).
  pose proof (pack_into_H_length _ _ _ _ E4) as (L4 & _).
  pose proof (pack_into_H_length _ _ _ _ E5) as (L5 & _).
  pose proof (pack_into_H_length _ _ _ _ E) as (L6 & _).
  split; [|congruence].
  front E2. front E3. front E5. front E.
  apply (starts_with_dims_front w h h4); [congruence|].
  eapply (pack_dims_front _ _ h3); [exact E1| |exact E4].
  apply take2_of_take4. congruence.
Qed.

Section Front.
Context `{Zlib} `{PIL}.

Lemma default_header_front w h n hd :
  default_header w h n = Ok hd -> starts_with_dims w h hd /\ length hd = 50%nat.
Proof.
  unfold default_header. intros E.
  apply bind_Ok in E as (h1 & E1 & E). apply bind_Ok in E as (h2 & E2 & E).
  apply bind_Ok in E as (h3 & E3 & E). apply bind_Ok in E as (h4 & E4 & E).
  apply bind_Ok in E as (h5 & E5 & E). apply bind_Ok in E as (h6 & E6 & E).
  apply bind_Ok in E as (h7 & E7 & E). apply bind_Ok in E as (h8 & E8 & E).
  apply bind_Ok in E as (h9 & E9 & E).
  assert (L : length hd = 50%nat).
  { apply pack_into_H_Ok in E1 as (_ & _ & ->), E2 as (_ & _ & ->), E3 as (_ & _ & ->),
      E4 as (_ & _ & ->), E5 as (_ & _ & ->), E6 as (_ & _ & ->).
    apply pack_into_f_Ok in E7 as (? & ? & ? & ? & _ & _ & ->),
      E8 as (? & ? & ? & ? & _ & _ & ->).
    apply pack_into_H_Ok in E9 as (_ & _ & ->), E as (_ & _ & ->). reflexivity. }
  split; [|exact L].
  front E2. front E3. front E5. front E6. front E7. front E8. front E9. front E.
  apply (starts_with_dims_front w h h4); [congruence|].
  eapply (pack_dims_front _ _ h3); [exact E1| |exact E4].
  apply take2_of_take4. congruence.
Qed.

Lemma slice_assign_front (v buf : bytes) :
  (20 <= length buf)%nat -> take 4 (slice_assign 20 46 v buf) = take 4 buf.
Proof. intros Hl. unfold slice_assign. apply take_write; lia. Qed.

Lemma header_from_original_front oh forced w h n hd :
  header_from_original oh forced w h n = Ok hd -> starts_with_dims w h hd.
Proof.
  unfold header_from_original. intros E.
  apply bind_Ok in E as (h1 & E1 & E). apply bind_Ok in E as (h2 & E2 & E).
  apply bind_Ok in E as (h3 & E3 & E). apply bind_Ok in E as (oi & _ & E).
  apply write_dimensions_front in E1 as (F1 & _).
  pose proof (pack_into_H_length _ _ _ _ E3) as (L3 & B3).
  front E3.
  assert (T2 : take 4 h2 = take 4 h1).
  { destruct forced; [|congruence].
    apply bind_Ok in E2 as (oi' & _ & E2).
    destruct oi' as [oi'|]; [|congruence].
    destruct (andb _ _); [|congruence].
    apply bind_Ok in E2 as (hx & Ex & E2). front Ex. front E2. congruence. }
  assert (T : take 4 hd = take 4 h3).
  { destruct oi as [oi|]; [|congruence].
    destruct (orb _ _); injection E as <-; [|reflexivity].
    apply slice_assign_front. lia. }
  apply (starts_with_dims_front w h h1); [congruence|exact F1].
Qed.

Lemma encode_chowdren_image_front img oh fd blob :
  encode_chowdren_image img oh fd = Ok blob ->
  let c := Call_encode img oh fd in
  starts_with_dims (call_size c).1 (call_size c).2 blob /\ len (call_pixels c) <= 65535.
Proof.
  intros E c. rewrite encode_chowdren_image_unfold in E. cbv zeta in E. fold c in E.
  unfold MAX_PIXEL_DATA_SIZE in E.
  destruct (Z.ltb_spec 65535 (len (call_pixels c))); [discriminate|].
  split; [|assumption].
  apply bind_Ok in E as (hd & E1 & [= <-]).
  assert (F : starts_with_dims (call_size c).1 (call_size c).2 hd /\ (4 <= length hd)%nat).
  { destruct oh as [oh|].
    - destruct (50 <=? len oh).
      + pose proof (header_from_original_front _ _ _ _ _ _ E1) as F. split; [exact F|].
        destruct F as (F & _). apply (f_equal length) in F. rewrite length_take in F.
        unfold dims_front in F. cbn [length] in F. lia.
      + apply default_header_front in E1 as (F & L). split; [exact F|lia].
    - apply default_header_front in E1 as (F & L). split; [exact F|lia]. }
  destruct F as ((F & R) & L). split; [|exact R].
  rewrite take_app_le by lia. exact F.
Qed.

Lemma encode_chowdren_image_inline_front img oh blob :
  encode_chowdren_image_inline img oh = Ok blob ->
  let c := Call_inline img oh in
  starts_with_dims (call_size c).1 (call_size c).2 blob /\ len (call_pixels c) <= 65535.
Proof.
  intros E c. unfold encode_chowdren_image_inline in E.
  unfold c, call_size, call_pixels, call_image.
  set (img' := match im_mode img with RGBA => img | _ => im_convert_RGBA img end) in *.
  cbv zeta in E. cbn [fst snd].
  destruct (Z.ltb_spec 65535 (len (im_data img'))); [discriminate|].
  split; [|assumption].
  apply bind_Ok in E as (h1 & E1 & E). apply bind_Ok in E as (h2 & E2 & E).
  apply bind_Ok in E as (h3 & E3 & E). apply bind_Ok in E as (h4 & E4 & E).
  apply bind_Ok in E as (h5 & E5 & E). apply bind_Ok in E as (h6 & E6 & E).
  apply bind_Ok in E as (h7 & E7 & E). apply bind_Ok in E as (ow & _ & E).
  apply bind_Ok in E as (ohh & _ & E). apply bind_Ok in E as (h8 & E8 & [= <-]).
  pose proof (pack_dims_front _ _ h1 _ _ E1 eq_refl _ E2) as F2.
  pose proof (pack_into_H_length _ _ _ _ E7) as (L7 & B7).
  front E3. front E4. front E5. front E6. front E7.
  assert (T : take 4 h8 = take 4 h7 /\ (4 <= length h8)%nat).
  { destruct (orb _ _).
    - injection E8 as <-. split; [apply slice_assign_front; lia|].
      unfold slice_assign. rewrite !length_app, length_take. lia.
    - destruct (andb _ _).
      + apply bind_Ok in E8 as (x & _ & E8). apply bind_Ok in E8 as (y & _ & E8).
        apply bind_Ok in E8 as (hx & Ex & E8).
        apply pack_into_f_Ok in Ex as (? & ? & ? & ? & _ & Lx & ->).
        apply pack_into_f_Ok in E8 as (? & ? & ? & ? & _ & Ly & ->).
        split.
        * rewrite take_write by lia. rewrite take_write by lia. reflexivity.
        * rewrite !length_app, length_take. lia.
      + injection E8 as <-. split; [reflexivity|lia]. }
  destruct T as (T & L8). destruct F2 as (F2 & R). split; [|exact R].
  rewrite take_app_le by lia. congruence.
Qed.

Lemma run_encode_front c blob :
  run_encode c = Ok blob ->
  starts_with_dims (call_size c).1 (call_size c).2 blob /\ len (call_pixels c) <= 65535.
Proof.
  destruct c as [img oh fd|img oh]; simpl run_encode; intros E.
  - apply (encode_chowdren_image_front _ _ _ _ E).
  - apply (encode_chowdren_image_inline_front _ _ _ E).
Qed.

End Front.

Lemma z2b_inj_u8 a b : 0 <= a < 256 -> z2b a = z2b b -> a = b mod 256.
Proof.
  intros Ha E. apply (f_equal b2z) in E. rewrite !b2z_z2b in E.
  rewrite Z.mod_small in E by lia. exact E.
Qed.

Lemma dims_front_width w h a b c d :
  0 <= w <= 65535 -> dims_front w h = [a; b; c; d] -> w = b2z a + 256 * b2z b.
Proof.
  intros Hw [= <- <- _ _]. symmetry. apply u16_bytes. assumption.
Qed.

Lemma detect_image_format_dims w h blob :
  starts_with_dims w h blob -> w <= 16383 -> detect_image_format blob = ext_bin.
Proof.
  intros (F & Hw & _) Hs. unfold detect_image_format.
  assert (T2 : take 2 blob = [z2b w; z2b (w / 256)]).
  { apply (f_equal (take 2)) in F. rewrite take_take in F. exact F. }
  rewrite F, T2.
  assert (W : forall a b, [z2b w; z2b (w / 256)] = [a; b] -> w = b2z a + 256 * b2z b).
  { intros a b [= <- <-]. symmetry. apply u16_bytes. assumption. }
  rewrite !bool_decide_eq_false_2; [reflexivity|..].
  - unfold DDS_magic, dims_front. intros [= E1 E2 _ _].
    specialize (W x44 x44). rewrite E1, E2 in W. specialize (W eq_refl).
    vm_compute in W. lia.
  - unfold BMP_magic. intros E. apply W in E. vm_compute in E. lia.
  - unfold JPEG_magic. intros E. apply W in E. vm_compute in E. lia.
  - unfold PNG_magic, dims_front. intros [= E1 E2 _ _].
    specialize (W x89 x50). rewrite E1, E2 in W. specialize (W eq_refl).
    vm_compute in W. lia.
Qed.

Section EncodedNames.
Context `{Zlib} `{PIL}.

Lemma run_encode_detected c w h blob :
  call_size c = (w, h) -> len (call_pixels c) = w * h * 4 -> 0 < h ->
  run_encode c = Ok blob ->
  starts_with_dims w h blob /\ w <= 16383 /\ detect_image_format blob = ext_bin.
Proof.
  intros Cs Cp Hh E. destruct (run_encode_front _ _ E) as (F & L).
  rewrite Cs in F. cbn [fst snd] in F. rewrite Cp in L.
  assert (Hw : w <= 16383) by (destruct F as (_ & ? & _); nia).
  split; [exact F|]. split; [exact Hw|].
  eapply detect_image_format_dims; eassumption.
Qed.

(** X4. A blob returned by either encoder for an image of height at least
    1 is not taken for a PNG, JPEG, BMP or DDS file by
    [detect_image_format]: it starts with its width, which the size limit
    keeps at 16383 or less, below every width that spells one of the four
    signatures.  [extract_images], which looks at the first 16 bytes, names
    it [.bin]. *)
Theorem encoded_image_is_named_bin c w h blob :
  call_size c = (w, h) -> len (call_pixels c) = w * h * 4 -> 0 < h ->
  run_encode c = Ok blob ->
  w <= 16383 /\ detect_image_format blob = ext_bin /\
  detect_image_format (take 16 blob) = ext_bin.
Proof.
  intros Cs Cp Hh E. destruct (run_encode_detected _ _ _ _ Cs Cp Hh E) as (_ & Hw & D).
  rewrite detect_image_format_header. auto.
Qed.

End EncodedNames.

(** ** Silent audio *)







(** ** The optimizer *)

Section OptimizerFacts.
Context `{Zlib} `{PIL}.

Lemma decode_chowdren_image_inline_Ok data img :
  decode_chowdren_image_inline data = Ok img ->
  stored_size data = Ok (im_width img, im_height img) /\ im_mode img = RGBA /\
  0 <= im_width img <= 65535 /\ 0 <= im_height img <= 65535.
Proof.
  unfold decode_chowdren_image_inline, stored_size. intros E.
  apply bind_Ok in E as (w & Ew & E). apply bind_Ok in E as (h & Eh & E).
  rewrite Ew, Eh. cbn [mbind result_bind].
  pose proof (unpack_H_range _ _ Ew). pose proof (unpack_H_range _ _ Eh).
  destruct (find_marker_from _ _ _); [|discriminate].
  destruct (zlib_decompress _); [|discriminate].
  unfold Image_frombytes in E. destruct (_ <? _); [discriminate|].
  injection E as <-. cbn [im_width im_height im_mode]. auto.
Qed.

(** The steps of [optimize_single_image_smart] on a call that saves. *)
Lemma optimize_saved_inv original_data scale_factor min_dimension :
  let o := optimize_single_image_smart original_data scale_factor min_dimension in
  oo_saved o = true ->
  exists img new_w new_h encoded_data,
    50 <= len original_data /\
    decode_chowdren_image_inline original_data = Ok img /\
    min_dimension < im_width img /\ min_dimension < im_height img /\
    1 <= new_w /\ 1 <= new_h /\ min_dimension <= new_w /\ min_dimension <= new_h /\
    (new_w, new_h) <> (im_width img, im_height img) /\
    new_w * new_h * 4 <= 65535 /\
    encode_chowdren_image_inline (im_resize img new_w new_h) original_data = Ok encoded_data /\
    o = {| oo_saved := true; oo_original_pixels := im_width img * im_height img;
           oo_new_pixels := new_w * new_h; oo_reason := reason_saved;
           oo_pixel_reduction := oo_pixel_reduction o;
           oo_written := Some encoded_data |}.
Proof.
  intros o. subst o. unfold optimize_single_image_smart.
  destruct (Z.ltb_spec (len original_data) 50); [discriminate|].
  destruct (decode_chowdren_image_inline original_data) as [img|]; [|discriminate].
  destruct (orb _ _) eqn:Small; [discriminate|].
  apply orb_false_iff in Small as [Sw%Z.leb_gt Sh%Z.leb_gt].
  destruct (int_of_float _) as [sw|]; [|discriminate].
  destruct (int_of_float _) as [sh|]; [|discriminate].
  cbv zeta.
  set (new_w := if Z.max 1 sw <? min_dimension then min_dimension else Z.max 1 sw).
  set (new_h := if Z.max 1 sh <? min_dimension then min_dimension else Z.max 1 sh).
  destruct (andb _ _) eqn:Same; [discriminate|].
  destruct (Z.ltb_spec 65535 (new_w * new_h * 4)); [discriminate|].
  destruct (encode_chowdren_image_inline _ _) as [encoded_data|] eqn:Enc; [|discriminate].
  destruct (_ =? 0); [discriminate|]. intros _.
  exists img, new_w, new_h, encoded_data.
  assert (Hw : 1 <= new_w /\ min_dimension <= new_w)
    by (subst new_w; destruct (Z.ltb_spec (Z.max 1 sw) min_dimension); lia).
  assert (Hh : 1 <= new_h /\ min_dimension <= new_h)
    by (subst new_h; destruct (Z.ltb_spec (Z.max 1 sh) min_dimension); lia).
  repeat split; try assumption; try lia.
  intros [= Ew Eh]. rewrite Ew, Eh, !Z.eqb_refl in Same. discriminate.
Qed.

(** X6. A call of [optimize_single_image_smart] that returns
    [saved = True] wrote a blob that carries new dimensions [new_w] and
    [new_h], different from the stored ones, each at least 1 and at least
    [min_dimension], with [new_w * new_h * 4] within the size limit, and
    whose opaque region (bytes 20-45) is zero; the stored dimensions both
    exceed [min_dimension], and the pixel counts returned are those of the
    stored and of the new dimensions.  PIL's [resize] is taken to return an
    image of the size it is asked for. *)
Theorem optimize_saved_blob original_data scale_factor min_dimension :
  resize_law ->
  let o := optimize_single_image_smart original_data scale_factor min_dimension in
  oo_saved o = true ->
  exists orig_w orig_h new_w new_h encoded_data,
    stored_size original_data = Ok (orig_w, orig_h) /\
    min_dimension < orig_w /\ min_dimension < orig_h /\
    1 <= new_w /\ 1 <= new_h /\ min_dimension <= new_w /\ min_dimension <= new_h /\
    (new_w, new_h) <> (orig_w, orig_h) /\ new_w * new_h * 4 <= 65535 /\
    oo_written o = Some encoded_data /\ metadata_zeroed new_w new_h encoded_data /\
    oo_original_pixels o = orig_w * orig_h /\ oo_new_pixels o = new_w * new_h /\
    oo_reason o = reason_saved.
Proof.
  intros Law o Hs.
  destruct (optimize_saved_inv _ _ _ Hs)
    as (img & nw & nh & blob & Hl & D & Sw & Sh & W1 & H1 & Wm & Hm & Ne & Hp & Enc & Eo).
  fold o in Eo.
  apply decode_chowdren_image_inline_Ok in D as (St & Mo & _ & _).
  destruct (Law img nw nh) as (Lm & Lw & Lh & Ld); [lia..|].
  rewrite Mo in Lm, Ld. cbn [bytes_per_pixel] in Ld.
  assert (Cs : call_size (Call_inline (im_resize img nw nh) original_data) = (nw, nh)).
  { unfold call_size. rewrite Lm, Lw, Lh. reflexivity. }
  assert (Cp : call_pixels (Call_inline (im_resize img nw nh) original_data)
               = im_data (im_resize img nw nh)).
  { unfold call_pixels, call_image. rewrite Lm. reflexivity. }
  assert (MZ : metadata_zeroed nw nh blob).
  { destruct (encode_inline_resized (im_resize img nw nh) original_data nw nh blob Hl Cs)
      as (Z0 & Dm & Sz); [rewrite St; congruence|exact Enc|].
    rewrite Cp, Ld in Sz. split; [assumption|]. split; assumption. }
  exists (im_width img), (im_height img), nw, nh, blob.
  rewrite Eo. cbn [oo_written oo_original_pixels oo_new_pixels oo_reason].
  do 9 (split; [assumption|]). split; [reflexivity|]. split; [exact MZ|].
  repeat split.
Qed.

(** X7. With a [min_dimension] that is not negative,
    [optimize_single_image_smart] writes the output file exactly when it
    returns [saved = True], and gives the reason ["saved"] exactly then: a
    call that reports a skip or an error has written nothing. *)
Theorem optimize_writes_when_saved original_data scale_factor min_dimension :
  0 <= min_dimension ->
  let o := optimize_single_image_smart original_data scale_factor min_dimension in
  (is_Some (oo_written o) <-> oo_saved o = true) /\
  (oo_reason o = reason_saved <-> oo_saved o = true).
Proof.
  intros Hm o. subst o. unfold optimize_single_image_smart.
  assert (N : forall r p, (is_Some (oo_written (skipped p r)) <-> oo_saved (skipped p r) = true)).
  { intros r p. simpl. split; [intros [x Hx]|]; discriminate. }
  assert (F : (is_Some (oo_written (failed None)) <-> oo_saved (failed None) = true) /\
              (oo_reason (failed None) = reason_saved <-> oo_saved (failed None) = true)).
  { simpl. split; (split; [|discriminate]); [intros [x Hx]|]; discriminate. }
  assert (S : forall r p, r <> reason_saved ->
            (oo_reason (skipped p r) = reason_saved <-> oo_saved (skipped p r) = true)).
  { intros r p Hr. simpl. split; [contradiction|discriminate]. }
  destruct (Z.ltb_spec (len original_data) 50); [split; [apply N|apply S; discriminate]|].
  destruct (decode_chowdren_image_inline original_data) as [img|] eqn:D; [|exact F].
  destruct (orb _ _) eqn:Small; [split; [apply N|apply S; discriminate]|].
  apply orb_false_iff in Small as [Sw%Z.leb_gt Sh%Z.leb_gt].
  destruct (int_of_float _) as [sw|]; [|exact F].
  destruct (int_of_float _) as [sh|]; [|exact F].
  cbv zeta.
  destruct (andb _ _); [split; [apply N|apply S; discriminate]|].
  destruct (_ <? _); [split; [apply N|apply S; discriminate]|].
  destruct (encode_chowdren_image_inline _ _) as [encoded_data|]; [|exact F].
  destruct (Z.eqb_spec (im_width img * im_height img) 0) as [Z0|_]; [nia|].
  simpl. split; split; eauto.
Qed.

End OptimizerFacts.

(** ** The theorems at concrete inputs *)

Lemma repack_then_extract_witness :
  exists res images,
    repack_assets empty_archive {[ 1%nat := bytes_of [1; 2; 3; 4] ]} ∅ = Ok res /\
    extract_images (rr_new_f res) 10 = Ok images /\
    images !! 1%nat = Some (ext_bin, bytes_of [1; 2; 3; 4]).
Proof.
  destruct one_image_repacks as (res & E).
  destruct (repack_then_extract _ _ _ _ 10 E)
    as (T1 & T2 & T3 & T4 & I & S & F & Sh & (R1 & _) & (X & _) & X1 & _).
  assert (N1 : length T1 = IMAGE_COUNT).
  { destruct (read_asset_table_full empty_archive TABLE_OFFSETS_images IMAGE_COUNT)
      as (T & R & L & _).
    - unfold empty_archive, zeros. rewrite length_replicate.
      unfold TABLE_OFFSETS_images, IMAGE_COUNT. lia.
    - rewrite R1 in R. injection R as <-. exact L. }
  assert (L1 : T1 !! 1%nat = Some (0, 0)).
  { apply (empty_archive_table _ _ _ _ R1). rewrite N1. unfold IMAGE_COUNT. lia. }
  assert (Pl : payload empty_archive {[ 1%nat := bytes_of [1; 2; 3; 4] ]} 1 (0, 0)
               = bytes_of [1; 2; 3; 4]).
  { unfold payload.
    replace ({[ 1%nat := bytes_of [1; 2; 3; 4] ]} !! 1%nat) with (Some (bytes_of [1; 2; 3; 4]))
      by (vm_compute; reflexivity).
    reflexivity. }
  assert (D : detect_image_format (bytes_of [1; 2; 3; 4]) = ext_bin)
    by (vm_compute; reflexivity).
  exists res, I. split; [exact E|]. split; [exact X|].
  rewrite (X1 1%nat (0, 0)).
  - rewrite Pl, D. reflexivity.
  - rewrite images_below_sounds_eq. lia.
  - exact L1.
  - reflexivity.
  - left. exists (bytes_of [1; 2; 3; 4]). vm_compute. reflexivity.
  - unfold len. lia.
Defined.

Lemma encoded_image_is_named_bin_witness :
  exists blob,
    run_encode (Call_encode image_2x2 None None) = Ok blob /\
    detect_image_format blob = ext_bin.
Proof.
  eexists. split; [vm_compute; reflexivity|].
  apply (encoded_image_is_named_bin (Call_encode image_2x2 None None) 2 2);
    try (vm_compute; reflexivity).
Defined.

Lemma length_concat_map {A B} (f : A -> list B) (k : nat) (l : list A) :
  (forall x, length (f x) = k) -> length (concat (map f l)) = (length l * k)%nat.
Proof.
  intros Hf. induction l as [|a l IH]; [reflexivity|].
  cbn [map concat length]. rewrite length_app, Hf, IH. lia.
Qed.

Lemma length_pixel_at img x y :
  length (RefPIL.pixel_at img x y) = Z.to_nat (bytes_per_pixel (im_mode img)).
Proof.
  unfold RefPIL.pixel_at. rewrite length_app. unfold zeros.
  rewrite length_replicate, length_slice. lia.
Qed.

(** The reference implementation of [resize] has the size it is asked
    for. *)
Lemma ref_resize_law : resize_law.
Proof.
  intros img w h Hw Hh. unfold im_resize, ref_pil, RefPIL.resize.
  cbn [im_mode im_width im_height im_data]. repeat split.
  unfold len. rewrite (length_concat_map _ (Z.to_nat (bytes_per_pixel (im_mode img)))).
  - rewrite length_seq. destruct (im_mode img); cbn [bytes_per_pixel]; nia.
  - intros i. apply length_pixel_at.
Qed.

Lemma optimize_saved_blob_witness :
  exists data new_w new_h blob,
    encode_chowdren_image_inline image_4x4 header_4x4 = Ok data /\
    oo_saved (optimize_single_image_smart data default_scale_factor 1) = true /\
    oo_written (optimize_single_image_smart data default_scale_factor 1) = Some blob /\
    metadata_zeroed new_w new_h blob /\ new_w * new_h * 4 <= 65535.
Proof.
  destruct (encode_chowdren_image_inline image_4x4 header_4x4) as [data|] eqn:E;
    [|vm_compute in E; discriminate].
  assert (Hs : oo_saved (optimize_single_image_smart data default_scale_factor 1) = true).
  { vm_compute in E. injection E as <-. vm_compute. reflexivity. }
  destruct (optimize_saved_blob _ _ _ ref_resize_law Hs)
    as (ow & oh & nw & nh & blob & _ & _ & _ & _ & _ & _ & _ & _ & Hp & Wr & MZ & _).
  exists data, nw, nh, blob. split; [reflexivity|]. auto.
Defined.

Lemma optimize_writes_when_saved_witness :
  is_Some (oo_written (optimize_single_image_smart blob_2x2 default_scale_factor 16)) <->
  oo_saved (optimize_single_image_smart blob_2x2 default_scale_factor 16) = true.
Proof.
  apply (optimize_writes_when_saved blob_2x2 default_scale_factor 16). lia.
Defined.

Lemma slice_take {A} (a b n : nat) (l : list A) :
  (b <= n)%nat -> slice a b (take n l) = slice a b l.
Proof.
  intros Hb. unfold slice. rewrite skipn_firstn_comm, take_take. f_equal. lia.
Qed.

Lemma header_dims_are_take w h hd hd' :
  take 16 hd' = take 16 hd -> header_dims_are w h hd -> header_dims_are w h hd'.
Proof.
  intros T. unfold header_dims_are.
  rewrite <- !(slice_take _ _ 16 hd') by lia. rewrite T.
  rewrite !slice_take by lia. tauto.
Qed.

Lemma drop_write {A} (n off : nat) (buf v : list A) :
  (off + length v <= n)%nat -> (off + length v <= length buf)%nat ->
  drop n (take off buf ++ v ++ drop (off + length v) buf) = drop n buf.
Proof.
  intros Hn Hl. rewrite app_assoc.
  rewrite drop_app_ge by (rewrite length_app, length_take; lia).
  rewrite length_app, length_take, drop_drop. f_equal. lia.
Qed.

Lemma pack_into_H_take n buf off v buf' :
  (n <= off)%nat -> pack_into_H buf off v = Ok buf' -> take n buf' = take n buf.
Proof.
  intros Ho E. apply pack_into_H_Ok in E as (_ & Hl & ->). apply take_write; lia.
Qed.

Lemma pack_into_f_take n buf off x buf' :
  (n <= off)%nat -> pack_into_f buf off x = Ok buf' -> take n buf' = take n buf.
Proof.
  intros Ho E. apply pack_into_f_Ok in E as (a & b & c & d & _ & Hl & ->).
  apply take_write; lia.
Qed.

Lemma pack_into_f_drop n buf off x buf' :
  (off + 4 <= n)%nat -> pack_into_f buf off x = Ok buf' ->
  drop n buf' = drop n buf /\ length buf' = length buf.
Proof.
  intros Ho E. apply pack_into_f_Ok in E as (a & b & c & d & _ & Hl & ->). split.
  - apply (drop_write n off buf [a; b; c; d]); simpl; lia.
  - rewrite !length_app, length_take, length_drop. simpl. lia.
Qed.

Lemma slice_assign_drop (buf : bytes) :
  (46 <= length buf)%nat ->
  drop 46 (slice_assign 20 46 (zeros 26) buf) = drop 46 buf /\
  take 16 (slice_assign 20 46 (zeros 26) buf) = take 16 buf /\
  length (slice_assign 20 46 (zeros 26) buf) = length buf.
Proof.
  intros Hl. unfold slice_assign. change (Nat.max 20 46) with (20 + length (zeros 26))%nat.
  split; [|split].
  - apply drop_write; simpl; lia.
  - apply take_write; lia.
  - rewrite !length_app, length_take, length_drop.
    change (length (zeros 26)) with 26%nat. lia.
Qed.

Lemma slice_drop {A} (a b : nat) (l l' : list A) :
  drop a l' = drop a l -> slice a b l' = slice a b l.
Proof. intros D. unfold slice. rewrite D. reflexivity. Qed.

Lemma pack_size_field buf n buf' :
  pack_into_H buf 46 n = Ok buf' ->
  unpack_H (slice 46 48 buf') = Ok n /\ take 16 buf' = take 16 buf /\
  length buf' = length buf /\ (48 <= length buf)%nat.
Proof.
  intros E. assert (T : take 16 buf' = take 16 buf) by (apply (pack_into_H_take 16 buf 46 n); [lia|exact E]).
  pose proof (pack_into_H_length _ _ _ _ E) as (L & B).
  apply pack_into_H_Ok in E as (Hn & Hl & ->).
  split; [|auto]. unfold slice.
  rewrite drop_app_ge by (rewrite length_take; lia). rewrite length_take.
  replace (46 - 46 `min` length buf)%nat with 0%nat by lia.
  cbn [drop skipn app take firstn Nat.sub unpack_H]. rewrite u16_bytes by lia. reflexivity.
Qed.

Ltac dims16 buf L :=
  do 16 (destruct buf as [|? buf]; [exfalso; simpl in L; lia|]).

(** The six dimension fields, in either order of writing. *)
Lemma write_dimensions_fields header w h hd :
  write_dimensions header w h = Ok hd ->
  header_dims_are w h hd /\ length hd = length header.
Proof.
  unfold write_dimensions. intros E.
  apply bind_Ok in E as (h1 & E1 & E). apply bind_Ok in E as (h2 & E2 & E).
  apply bind_Ok in E as (h3 & E3 & E). apply bind_Ok in E as (h4 & E4 & E).
  apply bind_Ok in E as (h5 & E5 & E).
  pose proof (pack_into_H_length _ _ _ _ E1) as (L1 & _).
  pose proof (pack_into_H_length _ _ _ _ E2) as (L2 & _).
  pose proof (pack_into_H_length _ _ _ _ E3) as (L3 & B3).
  pose proof (pack_into_H_length _ _ _ _ E4) as (L4 & _).
  pose proof (pack_into_H_length _ _ _ _ E5) as (L5 & _).
  pose proof (pack_into_H_length _ _ _ _ E) as (L6 & B6).
  split; [|congruence].
  assert (L : (16 <= length header)%nat) by lia.
  apply pack_into_H_Ok in E1 as (Hw & _ & ->). apply pack_into_H_Ok in E2 as (_ & _ & ->).
  apply pack_into_H_Ok in E3 as (_ & _ & ->). apply pack_into_H_Ok in E4 as (Hh & _ & ->).
  apply pack_into_H_Ok in E5 as (_ & _ & ->). apply pack_into_H_Ok in E as (_ & _ & ->).
  dims16 header L. unfold header_dims_are.
  cbn [firstn skipn app Nat.add Nat.sub slice unpack_H].
  rewrite !u16_bytes by assumption. repeat split; reflexivity.
Qed.

Section Describes.
Context `{Zlib} `{PIL}.

Lemma default_header_describes w h n hd :
  default_header w h n = Ok hd -> describes w h n hd /\ length hd = 50%nat.
Proof.
  intros E. pose proof (default_header_front _ _ _ _ E) as (_ & L).
  split; [|exact L]. unfold default_header in E.
  assert (E' : exists hx h6 h7 h8 h9,
             write_dimensions (zeros 50) w h = Ok hx /\
             pack_into_f hx 16 (float_div (float_of_int w) (float_of_int 2)) = Ok h7 /\
             pack_into_f h7 20 (float_div (float_of_int h) (float_of_int 2)) = Ok h8 /\
             pack_into_H h8 24 2 = Ok h9 /\ pack_into_H h9 46 n = Ok hd /\ h6 = hx).
  { unfold write_dimensions.
    apply bind_Ok in E as (h1 & E1 & E). apply bind_Ok in E as (h2 & E2 & E).
    apply bind_Ok in E as (h3 & E3 & E). apply bind_Ok in E as (h4 & E4 & E).
    apply bind_Ok in E as (h5 & E5 & E). apply bind_Ok in E as (h6 & E6 & E).
    apply bind_Ok in E as (h7 & E7 & E). apply bind_Ok in E as (h8 & E8 & E).
    apply bind_Ok in E as (h9 & E9 & E).
    exists h6, h6, h7, h8, h9. rewrite E1. cbn [mbind result_bind].
    rewrite E2. cbn [mbind result_bind]. rewrite E3. cbn [mbind result_bind].
    rewrite E4. cbn [mbind result_bind]. rewrite E5. cbn [mbind result_bind]. auto 10. }
  destruct E' as (hx & _ & h7 & h8 & h9 & Ed & E7 & E8 & E9 & E46 & _).
  apply write_dimensions_fields in Ed as (D & _).
  apply (pack_into_f_take 16) in E7; [|lia]. apply (pack_into_f_take 16) in E8; [|lia].
  apply (pack_into_H_take 16) in E9; [|lia].
  apply pack_size_field in E46 as (S & T & _).
  split; [|exact S]. apply (header_dims_are_take w h hx); [congruence|exact D].
Qed.

Lemma header_from_original_describes oh forced w h n hd :
  header_from_original oh forced w h n = Ok hd ->
  describes w h n hd /\ (48 <= length hd)%nat /\ length hd = length (slice 0 50 oh).
Proof.
  unfold header_from_original. intros E.
  apply bind_Ok in E as (h1 & E1 & E). apply bind_Ok in E as (h2 & E2 & E).
  apply bind_Ok in E as (h3 & E3 & E). apply bind_Ok in E as (oi & _ & E).
  apply write_dimensions_fields in E1 as (D & L1).
  apply pack_size_field in E3 as (S & T3 & L3 & B3).
  assert (T2 : take 16 h2 = take 16 h1 /\ length h2 = length h1).
  { destruct forced; [|injection E2 as <-; auto].
    apply bind_Ok in E2 as (oi' & _ & E2).
    destruct oi' as [oi'|]; [|injection E2 as <-; auto].
    destruct (andb _ _); [|injection E2 as <-; auto].
    apply bind_Ok in E2 as (hx & Ex & E2).
    assert (take 16 hx = take 16 h1) by (eapply (pack_into_f_take 16); [|exact Ex]; lia).
    assert (take 16 h2 = take 16 hx) by (eapply (pack_into_f_take 16); [|exact E2]; lia).
    apply (pack_into_f_drop 46) in Ex as (_ & ?); [|lia].
    apply (pack_into_f_drop 46) in E2 as (_ & ?); [|lia].
    split; congruence. }
  destruct T2 as (T2 & L2).
  assert (X : take 16 hd = take 16 h3 /\ drop 46 hd = drop 46 h3 /\ length hd = length h3).
  { destruct oi as [oi|]; [|injection E as <-; auto].
    destruct (orb _ _); injection E as <-; [|auto].
    destruct (slice_assign_drop h3) as (? & ? & ?); [lia|]. auto. }
  destruct X as (T & Dr & L).
  split; [|split; [lia|congruence]]. split.
  - apply (header_dims_are_take w h h1); [congruence|exact D].
  - rewrite (slice_drop 46 48 h3 hd Dr). exact S.
Qed.

Lemma describes_app w h n hd rest :
  (48 <= length hd)%nat -> describes w h n hd -> describes w h n (hd ++ rest).
Proof.
  intros L (D & S). unfold describes, header_dims_are in *.
  rewrite !slice_app_l by lia. auto.
Qed.

Lemma encode_chowdren_image_describes img oh fd blob :
  encode_chowdren_image img oh fd = Ok blob ->
  let c := Call_encode img oh fd in
  describes (call_size c).1 (call_size c).2 (len (call_pixels c)) blob /\ 50 <= len blob.
Proof.
  intros E c. rewrite encode_chowdren_image_unfold in E. cbv zeta in E. fold c in E.
  destruct (_ <? _); [discriminate|].
  apply bind_Ok in E as (hd & E1 & [= <-]).
  assert (F : describes (call_size c).1 (call_size c).2 (len (call_pixels c)) hd /\
              (50 <= length hd)%nat).
  { destruct oh as [oh|].
    - destruct (Z.leb_spec 50 (len oh)).
      + apply header_from_original_describes in E1 as (F & _ & L).
        split; [exact F|]. rewrite L, length_slice. unfold len in *. lia.
      + apply default_header_describes in E1 as (F & L). split; [exact F|lia].
    - apply default_header_describes in E1 as (F & L). split; [exact F|lia]. }
  destruct F as (F & L). split.
  - apply describes_app; [lia|exact F].
  - unfold len. rewrite length_app. lia.
Qed.

Lemma encode_chowdren_image_inline_describes img oh blob :
  encode_chowdren_image_inline img oh = Ok blob ->
  let c := Call_inline img oh in
  describes (call_size c).1 (call_size c).2 (len (call_pixels c)) blob /\
  (50 <= len oh -> 50 <= len blob).
Proof.
  intros E c. unfold encode_chowdren_image_inline in E.
  unfold c, call_size, call_pixels, call_image.
  set (img' := match im_mode img with RGBA => img | _ => im_convert_RGBA img end) in *.
  cbv zeta in E. cbn [fst snd].
  destruct (_ <? _); [discriminate|].
  apply bind_Ok in E as (h1 & E1 & E). apply bind_Ok in E as (h2 & E2 & E).
  apply bind_Ok in E as (h3 & E3 & E). apply bind_Ok in E as (h4 & E4 & E).
  apply bind_Ok in E as (h5 & E5 & E). apply bind_Ok in E as (h6 & E6 & E).
  apply bind_Ok in E as (h7 & E7 & E). apply bind_Ok in E as (ow & _ & E).
  apply bind_Ok in E as (ohh & _ & E). apply bind_Ok in E as (h8 & E8 & [= <-]).
  pose proof (pack_into_H_length _ _ _ _ E1) as (L1 & _).
  pose proof (pack_into_H_length _ _ _ _ E2) as (L2 & _).
  pose proof (pack_into_H_length _ _ _ _ E3) as (L3 & _).
  pose proof (pack_into_H_length _ _ _ _ E4) as (L4 & _).
  pose proof (pack_into_H_length _ _ _ _ E5) as (L5 & _).
  pose proof (pack_into_H_length _ _ _ _ E6) as (L6 & B6).
  assert (D6 : header_dims_are (im_width img') (im_height img') h6).
  { assert (L : (16 <= length (slice 0 50 oh))%nat) by lia.
    apply pack_into_H_Ok in E1 as (Hw & _ & ->). apply pack_into_H_Ok in E2 as (Hh & _ & ->).
    apply pack_into_H_Ok in E3 as (_ & _ & ->). apply pack_into_H_Ok in E4 as (_ & _ & ->).
    apply pack_into_H_Ok in E5 as (_ & _ & ->). apply pack_into_H_Ok in E6 as (_ & _ & ->).
    clear - L Hw Hh. revert L. generalize (slice 0 50 oh). intros hd L.
    dims16 hd L. unfold header_dims_are.
    cbn [firstn skipn app Nat.add Nat.sub slice unpack_H].
    rewrite !u16_bytes by assumption. repeat split; reflexivity. }
  apply pack_size_field in E7 as (S & T7 & L7 & B7).
  assert (X : take 16 h8 = take 16 h7 /\ drop 46 h8 = drop 46 h7 /\ length h8 = length h7).
  { destruct (orb _ _).
    - injection E8 as <-. destruct (slice_assign_drop h7) as (? & ? & ?); [lia|]. auto.
    - destruct (andb _ _).
      + apply bind_Ok in E8 as (x & _ & E8). apply bind_Ok in E8 as (y & _ & E8).
        apply bind_Ok in E8 as (hx & Ex & E8).
        assert (take 16 hx = take 16 h7) by (eapply (pack_into_f_take 16); [|exact Ex]; lia).
        assert (take 16 h8 = take 16 hx) by (eapply (pack_into_f_take 16); [|exact E8]; lia).
        apply (pack_into_f_drop 46) in Ex as (? & ?); [|lia].
        apply (pack_into_f_drop 46) in E8 as (? & ?); [|lia].
        repeat split; congruence.
      + injection E8 as <-. auto. }
  destruct X as (T & Dr & L). split.
  - apply describes_app; [lia|]. split.
    + apply (header_dims_are_take _ _ h6); [congruence|exact D6].
    + rewrite (slice_drop 46 48 h7 h8 Dr). exact S.
  - intros Hl. unfold len in *. rewrite length_app, L, L7, L6, L5, L4, L3, L2, L1, length_slice.
    lia.
Qed.

Lemma run_encode_describes c blob :
  run_encode c = Ok blob ->
  describes (call_size c).1 (call_size c).2 (len (call_pixels c)) blob.
Proof.
  destruct c as [img oh fd|img oh]; simpl run_encode; intros E.
  - apply (encode_chowdren_image_describes _ _ _ _ E).
  - apply (encode_chowdren_image_inline_describes _ _ _ E).
Qed.

End Describes.

(** What [diagnose_bin_file] answers for a file whose first two fields
    read [w] and [h]. *)
Lemma diagnose_bin_file_of_size data w h :
  50 <= len data -> stored_size data = Ok (w, h) ->
  diagnose_bin_file data = negb ((w =? 0) || (h =? 0)) && negb ((4096 <? w) || (4096 <? h)).
Proof.
  intros L S. unfold stored_size in S.
  apply bind_Ok in S as (w' & Ew & S). apply bind_Ok in S as (h' & Eh & [= -> ->]).
  unfold diagnose_bin_file. cbv zeta.
  destruct (Z.ltb_spec (len data) 50); [lia|].
  rewrite Ew, Eh. cbn [mbind result_bind].
  destruct (Z.leb_spec 48 (len data)); [|lia].
  destruct (unpack_H (slice 46 48 data)) eqn:U; cbn [mbind result_bind].
  - destruct (orb (w =? 0) (h =? 0)); [reflexivity|].
    destruct (orb (4096 <? w) (4096 <? h)); reflexivity.
  - exfalso. revert U. unfold slice.
    assert (Ld : (4 <= length (drop 46 data))%nat) by (rewrite length_drop; unfold len in *; lia).
    destruct (drop 46 data) as [|a [|b l]]; simpl in Ld; try lia.
    cbn [take firstn Nat.sub unpack_H]. discriminate.
Qed.

Section EncodedHeaders.
Context `{Zlib} `{PIL}.

(** X16. Every file the two encoders return describes the image it was
    made from, whatever header it started from: the three copies of the
    width and of the height read the image's size, the field at offset 46
    reads the length of the pixel data, which is at most 65535, and
    [stored_size], the size the decoders and the analysers read back, is
    that of the image. *)
Theorem encoded_header_describes_image c blob :
  run_encode c = Ok blob ->
  header_dims_are (call_size c).1 (call_size c).2 blob /\
  unpack_H (slice 46 48 blob) = Ok (len (call_pixels c)) /\
  stored_size blob = Ok (call_size c) /\
  len (call_pixels c) <= 65535.
Proof.
  intros E. destruct (run_encode_describes _ _ E) as (D & S).
  split; [exact D|]. split; [exact S|]. split.
  - destruct D as (W & _ & _ & Hh & _). unfold stored_size.
    rewrite W, Hh. cbn [mbind result_bind]. destruct (call_size c); reflexivity.
  - apply unpack_H_range in S. lia.
Qed.

(** X17. [diagnose_bin_file] on a file an encoder returned, of at least 50
    bytes: it answers [True] exactly when both sides of the image are
    between 1 and 4096 pixels. *)
Theorem diagnose_encoded_image c blob :
  run_encode c = Ok blob -> 50 <= len blob ->
  (diagnose_bin_file blob = true <->
   1 <= (call_size c).1 <= 4096 /\ 1 <= (call_size c).2 <= 4096).
Proof.
  intros E L. destruct (run_encode_describes _ _ E) as ((W & _ & _ & Hh & _) & _).
  pose proof (unpack_H_range _ _ W). pose proof (unpack_H_range _ _ Hh).
  rewrite (diagnose_bin_file_of_size blob (call_size c).1 (call_size c).2 L)
    by (unfold stored_size; rewrite W, Hh; reflexivity).
  rewrite andb_true_iff, !negb_true_iff, !orb_false_iff, !Z.eqb_neq, !Z.ltb_ge. lia.
Qed.

End EncodedHeaders.

Lemma encoded_header_describes_image_witness :
  exists blob,
    run_encode (Call_encode image_2x2 None None) = Ok blob /\
    stored_size blob = Ok (2, 2) /\ unpack_H (slice 46 48 blob) = Ok 16.
Proof.
  eexists. split; [vm_compute; reflexivity|].
  destruct (encoded_header_describes_image (Call_encode image_2x2 None None) _
              ltac:(vm_compute; reflexivity)) as (_ & S & St & _).
  split; [exact St|exact S].
Defined.

Lemma diagnose_encoded_image_witness :
  exists blob,
    run_encode (Call_encode image_2x2 None None) = Ok blob /\
    diagnose_bin_file blob = true.
Proof.
  eexists. split; [vm_compute; reflexivity|].
  apply (diagnose_encoded_image (Call_encode image_2x2 None None)).
  - vm_compute. reflexivity.
  - vm_compute. discriminate.
  - change (call_size (Call_encode image_2x2 None None)) with (2, 2). cbn [fst snd]. lia.
Defined.
